(** * Line search for the step selection (neupy/algorithms/steps/linear_search.py)

    A shallow embedding of [interval_location], [golden_search],
    [fmin_golden_search] and [LinearSearch.train_epoch], and the properties
    of the specification stated over it.

    Numbers.  Steps, brackets and tolerances are Theano scalars of the
    configured float type; they are modelled by the real numbers [R], so
    rounding is abstracted away.  Objective samples keep the special values
    of the float type ([+inf], [-inf], [nan]) because the code compares
    against an initial [np.inf] and tests [np.isnan]. *)

From Stdlib Require Import Reals Lra Psatz Lia ZArith List String Bool.
From Stdlib Require Import FunctionalExtensionality Sorting.Sorted.
Import ListNotations.

Local Open Scope R_scope.

(** ** Objective samples *)

Inductive sample : Type :=
| Fin (x : R)
| PInf
| NInf
| NaN.

Definition Rltb (x y : R) : bool := if Rlt_dec x y then true else false.
Definition Rleb (x y : R) : bool := if Rle_dec x y then true else false.

(** [T.lt]: the comparison of the float type, false as soon as one side
    is [nan]. *)
Definition lt (u v : sample) : bool :=
  match u, v with
  | NaN, _ => false
  | _, NaN => false
  | Fin x, Fin y => Rltb x y
  | Fin _, PInf => true
  | Fin _, NInf => false
  | PInf, _ => false
  | NInf, NInf => false
  | NInf, _ => true
  end.

(** [T.gt]. *)
Definition gt (u v : sample) : bool := lt v u.

(** [np.isnan]. *)
Definition isnan (u : sample) : bool :=
  match u with NaN => true | _ => false end.

(** [np.isfinite], used only to state properties. *)
Definition isfinite (u : sample) : bool :=
  match u with Fin _ => true | _ => false end.

(** ** Exceptions, and the monad of the numeric core

    A computation evaluates the objective at some points, in order, and
    either raises or returns: the log of evaluation points is kept so
    that "before [f] is called" and "evaluates [f c] and [f d]" can be
    stated. *)

Inductive exn : Type :=
| ValueError (msg : string)
| IndexError.

Definition M (A : Type) : Type := (list R * (exn + A))%type.

Definition ret {A} (x : A) : M A := ([], inr x).

Definition raise {A} (e : exn) : M A := ([], inl e).

Definition bind {A B} (m : M A) (k : A -> M B) : M B :=
  match m with
  | (l, inl e) => (l, inl e)
  | (l, inr x) => let (l', r) := k x in (l ++ l', r)
  end.

Notation "x <- m ;; k" := (bind m (fun x => k))
  (at level 61, m at next level, right associativity).
Notation "' p <- m ;; k" := (bind m (fun x => let p := x in k))
  (at level 61, p pattern, m at next level, right associativity).

(** One evaluation of the objective. *)
Definition call (f : R -> sample) (x : R) : M sample := ([x], inr (f x)).

Definition calls {A} (m : M A) : list R := fst m.
Definition outcome {A} (m : M A) : exn + A := snd m.

(** ** [theano.scan] with an [until] condition

    [fn] maps the previous outputs to the new outputs and the stop flag;
    the new outputs are recorded, then the loop stops when the flag is set
    or when [n_steps] steps were made. *)

Fixpoint scan {S} (fn : S -> M (S * bool)) (n_steps : nat) (s : S)
  : M (list S) :=
  match n_steps with
  | O => ret []
  | Datatypes.S n =>
      r <- fn s ;;
      if snd r then ret [fst r]
      else rest <- scan fn n (fst r) ;; ret (fst r :: rest)
  end.

(** What one step of [fn] does to the outputs, whether it asks to stop,
    and how many steps [scan] makes: read off [fn] and used to state the
    properties of the loops. *)
Section ScanRun.
Context {S : Type}.
Variable fn : S -> M (S * bool).

Definition next (s : S) : S :=
  match outcome (fn s) with
  | inr r => fst r
  | inl _ => s
  end.

Definition stops (s : S) : bool :=
  match outcome (fn s) with
  | inr r => snd r
  | inl _ => true
  end.

Definition after (k : nat) (s : S) : S := Nat.iter k next s.

Definition never_raises : Prop :=
  forall s, exists r, outcome (fn s) = inr r.

Fixpoint iterations (n_steps : nat) (s : S) : nat :=
  match n_steps with
  | O => O
  | Datatypes.S n =>
      if stops s then 1%nat else Datatypes.S (iterations n (next s))
  end.
End ScanRun.

(** [xs[-1]]. *)
Definition last_output {S} (xs : list S) : M S :=
  match rev xs with
  | [] => raise IndexError
  | x :: _ => ret x
  end.

(** ** interval_location *)

Section IntervalLocation.
Variable f : R -> sample.

Definition find_right_bound (maxstep : R) (st : sample * R)
  : M ((sample * R) * bool) :=
  let '(prev_func_output, step) := st in
  func_output <- call f step ;;
  let is_output_decrease := gt prev_func_output func_output in
  let step := if is_output_decrease then Rmin (2 * step) maxstep
              else step in
  let is_output_increse := lt prev_func_output func_output in
  let stoprule := is_output_increse || Rltb maxstep step in
  ret ((func_output, step), stoprule).

Definition interval_location (minstep maxstep : R) (maxiter : Z) : M R :=
  outs <- scan (find_right_bound maxstep) (Z.to_nat maxiter)
               (PInf, minstep) ;;
  last_output (map snd outs).
End IntervalLocation.

(** ** golden_search *)

Definition golden_ratio : R := (sqrt 5 - 1) / 2.

Definition bracket : Type := (R * R * R * R)%type.

Section GoldenSearch.
Variable f : R -> sample.

Definition interval_reduction (tol : R) (br : bracket)
  : M (bracket * bool) :=
  let '(a, b, c, d) := br in
  fc <- call f c ;;
  fd <- call f d ;;
  let '(a, b, c, d) :=
    if lt fc fd
    then (a, d, d - golden_ratio * (d - a), c)
    else (c, b, d, c + golden_ratio * (b - c)) in
  let stoprule := Rltb (Rabs (c - d)) tol in
  ret ((a, b, c, d), stoprule).

Definition initial_bracket (maxstep : R) : bracket :=
  let a := 0 in
  let b := maxstep in
  let c := b - golden_ratio * (b - a) in
  let d := a + golden_ratio * (b - a) in
  (a, b, c, d).

Definition golden_search (maxstep : R) (maxiter : Z) (tol : R) : M R :=
  outs <- scan (interval_reduction tol) (Z.to_nat maxiter)
               (initial_bracket maxstep) ;;
  '(a, b, _, _) <- last_output outs ;;
  ret ((a + b) / 2).
End GoldenSearch.

(** The update rule in the words of the specification: when
    [f c < f d] the bracket becomes [(a, d, d - phi (d - a), c)],
    otherwise [(c, b, d, c + phi (b - c))].  It is compared with
    [interval_reduction] below. *)
Definition golden_section_rule (f : R -> sample) (br : bracket) : bracket :=
  let '(a, b, c, d) := br in
  if lt (f c) (f d)
  then (a, d, d - golden_ratio * (d - a), c)
  else (c, b, d, c + golden_ratio * (b - c)).

Definition lower (br : bracket) : R := let '(a, _, _, _) := br in a.
Definition upper (br : bracket) : R := let '(_, b, _, _) := br in b.
Definition inner_c (br : bracket) : R := let '(_, _, c, _) := br in c.
Definition inner_d (br : bracket) : R := let '(_, _, _, d) := br in d.
Definition width (br : bracket) : R := upper br - lower br.
Definition midpoint (br : bracket) : R := (lower br + upper br) / 2.

(** The brackets of the loop keep the golden shape: both inner points
    are at the golden ratio of the bracket. *)
Definition golden_shape (br : bracket) : Prop :=
  inner_c br = upper br - golden_ratio * (upper br - lower br) /\
  inner_d br = lower br + golden_ratio * (upper br - lower br).

(** ** fmin_golden_search *)

Inductive param_value : Type :=
| IntValue (n : Z)
| FloatValue (x : R).

(** [param_value <= 0]. *)
Definition le_zero (v : param_value) : bool :=
  match v with
  | IntValue n => (n <=? 0)%Z
  | FloatValue x => Rleb x 0
  end.

Definition greater_than_zero_message (param_name : string) : string :=
  ("Parameter `" ++ param_name ++ "` should be greater than zero.")%string.

Fixpoint check_params (params : list (string * param_value)) : M unit :=
  match params with
  | [] => ret tt
  | (param_name, param_value) :: rest =>
      if le_zero param_value
      then raise (ValueError (greater_than_zero_message param_name))
      else check_params rest
  end.

Definition fmin_golden_search (f : R -> sample)
  (minstep maxstep : R) (maxiter : Z) (tol : R) : M R :=
  let params :=
    [ ("maxiter", IntValue maxiter);
      ("minstep", FloatValue minstep);
      ("maxstep", FloatValue maxstep);
      ("tol", FloatValue tol) ]%string in
  _ <- check_params params ;;
  _ <- (if Rleb maxstep minstep
        then raise (ValueError "`minstep` should be smaller than `maxstep`")
        else ret tt) ;;
  maxstep <- interval_location f minstep maxstep maxiter ;;
  best_step <- golden_search f maxstep maxiter tol ;;
  ret best_step.

(** ** LinearSearch.train_epoch

    The network is a store of Theano shared variables.  The collaborators
    are outside this file and stay abstract: the compiled training update
    [self.methods.train_epoch], the error [self.methods.prediction_error]
    (both at the fixed [input_train], [target_train]), and scipy's
    [minimize_scalar], a routine that can only evaluate its objective and
    eventually give back a point. *)

Inductive search_method : Type := golden | brent.

(** scipy's [minimize_scalar] is a third-party routine: all that is known
    of it is that it evaluates the objective it is given, some number of
    times, and gives back a point.  Such a routine is a finite strategy
    that either answers or asks for one more objective value. *)
Inductive minimizer : Type :=
| Answer (x : R)
| Evaluate (x : R) (k : sample -> minimizer).

Section LinearSearch.
Variable var : Type.
Variable var_eq_dec : forall x y : var, {x = y} + {x <> y}.
Variable value : Type.
(** The float stored by [self.variables.step.set_value(new_step)]. *)
Variable float_value : R -> value.

Definition store : Type := var -> value.

(** The shared variables, and the stores the training update was run
    on so far (a history the code does not keep: it is here to state
    that trials do not accumulate). *)
Record network : Type := {
  shared : store;
  trained_on : list store
}.

(** [param.get_value()] gives a copy of the value, so what is captured
    is not changed by later updates; [param.set_value(v)]. *)
Definition get_value (param : var) (g : network) : value :=
  shared g param.

Definition set_value (param : var) (v : value) (g : network) : network :=
  {| shared := fun x => if var_eq_dec x param then v else shared g x;
     trained_on := trained_on g |}.

(** [param for param, _ in self.init_train_updates()] *)
Variable params : list var.
(** [self.variables.step] *)
Variable step : var.
Variable methods_train_epoch : store -> store.
Variable methods_prediction_error : store -> sample.
Variable minimize_scalar : R -> search_method -> Z -> minimizer.

(** [train_epoch(input_train, target_train)]. *)
Definition train_epoch_call (g : network) : network :=
  {| shared := methods_train_epoch (shared g);
     trained_on := trained_on g ++ [shared g] |}.

(** The closure [setup_new_step] of [train_epoch], with the captured
    [param_defaults] as an argument; [np.where(np.isnan(error), np.inf,
    error)] is its result. *)
Definition setup_new_step (param_defaults : list value) (new_step : R)
  (g : network) : sample * network :=
  let g := fold_left
             (fun g (pp : value * var) =>
                let (param_default, param) := pp in
                set_value param param_default g)
             (combine param_defaults params) g in
  let g := set_value step (float_value new_step) g in
  let g := train_epoch_call g in
  let error := methods_prediction_error (shared g) in
  (if isnan error then PInf else error, g).

(** The minimizer run against a stateful objective. *)
Fixpoint minimize (m : minimizer)
  (objective : R -> network -> sample * network) (g : network)
  : R * network :=
  match m with
  | Answer x => (x, g)
  | Evaluate x k =>
      let (y, g) := objective x g in
      minimize (k y) objective g
  end.

(** [train_epoch]; the lists [weights] and [shared_step] that the source
    builds first are not used by it and are left out. *)
Definition train_epoch (tol : R) (method : search_method) (maxiter : Z)
  (g : network) : sample * network :=
  let param_defaults := map (fun param => get_value param g) params in
  let (res_x, g) :=
    minimize (minimize_scalar tol method maxiter)
             (setup_new_step param_defaults) g in
  setup_new_step param_defaults res_x g.

(** What the trials are compared with: the store [s0] captured at the
    start of the epoch with the shared step set to [x], the error of one
    training update made from it, and the minimizer run against that
    stateless objective. *)
Definition with_step (s0 : store) (x : R) : store :=
  fun v => if var_eq_dec v step then float_value x else s0 v.

Definition trial (s0 : store) (x : R) : sample :=
  let error := methods_prediction_error
                 (methods_train_epoch (with_step s0 x)) in
  if isnan error then PInf else error.

(** A network that differs from the captured store on the listed
    variables and on the step only. *)
Definition same_outside (s0 : store) (g : network) : Prop :=
  forall x, ~ In x params -> x <> step -> shared g x = s0 x.

Fixpoint answer (m : minimizer) (objective : R -> sample) : R :=
  match m with
  | Answer x => x
  | Evaluate x k => answer (k (objective x)) objective
  end.

Fixpoint queries (m : minimizer) (objective : R -> sample) : list R :=
  match m with
  | Answer _ => []
  | Evaluate x k => x :: queries (k (objective x)) objective
  end.
End LinearSearch.

(** ** A network with one weight

    A concrete instance of the collaborators, on which the closure can be
    run: variable [0] is the weight [w], variable [1] the shared step; the
    training update is one gradient step on [w * w], the error is [w * w],
    and the minimizer tries the steps [0] and [1] before it answers
    [1 / 2]. *)

Definition toy_params : list nat := [0%nat].
Definition toy_step : nat := 1%nat.

Definition toy_train_epoch (s : store nat R) : store nat R :=
  fun x => if Nat.eq_dec x 0 then s 0%nat - s 1%nat * (2 * s 0%nat)
           else s x.

Definition toy_prediction_error (s : store nat R) : sample :=
  Fin (s 0%nat * s 0%nat).

Definition toy_minimize_scalar (tol : R) (method : search_method)
  (maxiter : Z) : minimizer :=
  Evaluate 0 (fun _ => Evaluate 1 (fun _ => Answer (1 / 2))).

Definition toy_network : network nat R :=
  {| shared := fun _ => 1; trained_on := [] |}.

(** * Properties *)

(** ** Comparisons *)

Lemma Rltb_true (x y : R) : Rltb x y = true <-> x < y.
Proof.
  unfold Rltb. destruct (Rlt_dec x y); split; intros; try easy.
Qed.

Lemma Rltb_false (x y : R) : Rltb x y = false <-> y <= x.
Proof.
  unfold Rltb. destruct (Rlt_dec x y); split; intros; try easy; lra.
Qed.

Lemma Rleb_true (x y : R) : Rleb x y = true <-> x <= y.
Proof.
  unfold Rleb. destruct (Rle_dec x y); split; intros; try easy.
Qed.

Lemma Rleb_false (x y : R) : Rleb x y = false <-> y < x.
Proof.
  unfold Rleb. destruct (Rle_dec x y); split; intros; try easy; lra.
Qed.

Lemma lt_Fin (x y : R) : lt (Fin x) (Fin y) = Rltb x y.
Proof. reflexivity. Qed.

Lemma lt_PInf_l (v : sample) : lt PInf v = false.
Proof. destruct v; reflexivity. Qed.

Lemma lt_asym (u v : sample) : lt u v = true -> lt v u = false.
Proof.
  destruct u, v; simpl; try easy.
  rewrite Rltb_true, Rltb_false. lra.
Qed.

(** ** The monad *)

Lemma bind_inr {A B} (l : list R) (x : A) (k : A -> M B) :
  bind (l, inr x) k = (l ++ calls (k x), outcome (k x)).
Proof. unfold bind, calls, outcome. destruct (k x); reflexivity. Qed.

Lemma bind_inl {A B} (l : list R) (e : exn) (k : A -> M B) :
  bind (l, inl e) k = (l, inl e).
Proof. reflexivity. Qed.

Lemma bind_ret {A B} (x : A) (k : A -> M B) : bind (ret x) k = k x.
Proof. unfold ret. rewrite bind_inr. simpl. destruct (k x); reflexivity. Qed.

Lemma last_output_snoc {S} (xs : list S) (x : S) :
  last_output (xs ++ [x]) = ret x.
Proof. unfold last_output. rewrite rev_app_distr. reflexivity. Qed.

(** ** The loop of [scan] *)

Section ScanFacts.
Context {S : Type}.
Variable fn : S -> M (S * bool).

Lemma after_next (k : nat) (s : S) :
  after fn k (next fn s) = after fn (Datatypes.S k) s.
Proof. unfold after. symmetry. apply Nat.iter_succ_r. Qed.

Lemma iterations_le (n : nat) (s : S) : (iterations fn n s <= n)%nat.
Proof.
  revert s. induction n as [|n IH]; intros s; simpl; [lia|].
  destruct (stops fn s); [lia|]. specialize (IH (next fn s)). lia.
Qed.

Lemma iterations_pos (n : nat) (s : S) :
  (1 <= n)%nat -> (1 <= iterations fn n s)%nat.
Proof. destruct n; simpl; [lia|]. destruct (stops fn s); lia. Qed.

(** The loop goes on only while the stop rule is false ... *)
Lemma iterations_running (n : nat) (s : S) (j : nat) :
  (Datatypes.S j < iterations fn n s)%nat ->
  stops fn (after fn j s) = false.
Proof.
  revert s j. induction n as [|n IH]; intros s j; simpl; [lia|].
  destruct (stops fn s) eqn:E; [lia|]. intros H.
  destruct j as [|j]; [exact E|].
  rewrite <- after_next. apply IH. lia.
Qed.

(** ... and ends at [n] steps or at the first step that sets it. *)
Lemma iterations_end (n : nat) (s : S) :
  iterations fn n s = n \/
  exists j, iterations fn n s = Datatypes.S j /\
            stops fn (after fn j s) = true.
Proof.
  revert s. induction n as [|n IH]; intros s; simpl; [now left|].
  destruct (stops fn s) eqn:E.
  - right. exists O. now split.
  - destruct (IH (next fn s)) as [H | (j & H1 & H2)].
    + left. now rewrite H.
    + right. exists (Datatypes.S j). rewrite H1, <- after_next. now split.
Qed.

Lemma iterations_full (n : nat) (s : S) :
  (forall j, (j < n)%nat -> stops fn (after fn j s) = false) ->
  iterations fn n s = n.
Proof.
  revert s. induction n as [|n IH]; intros s H; simpl; [easy|].
  assert (H0 : stops fn s = false) by (apply (H O); lia).
  rewrite H0. f_equal. apply IH. intros j Hj.
  rewrite after_next. apply H. lia.
Qed.

(** The outputs and the evaluations of [scan], step by step. *)
Lemma scan_run (HT : never_raises fn) (n : nat) (s : S) :
  scan fn n s =
  (List.concat (map (fun j => calls (fn (after fn j s)))
               (seq 0 (iterations fn n s))),
   inr (map (fun j => after fn (Datatypes.S j) s)
            (seq 0 (iterations fn n s)))).
Proof.
  revert s. induction n as [|n IH]; intros s; [reflexivity|].
  cbn [scan iterations].
  destruct (HT s) as [[s' b] Hr].
  assert (Hn : next fn s = s') by (unfold next; now rewrite Hr).
  assert (Hs : stops fn s = b) by (unfold stops; now rewrite Hr).
  rewrite Hs. destruct (fn s) as [l o] eqn:Hfn.
  unfold outcome in Hr. simpl in Hr. subst o.
  rewrite bind_inr. cbn [fst snd].
  destruct b.
  - cbn. unfold after. cbn. rewrite Hfn, Hn. cbn. now rewrite app_nil_r.
  - subst s'. rewrite IH, bind_inr. cbn [calls outcome fst snd ret].
    rewrite app_nil_r. cbn [seq map List.concat].
    rewrite <- seq_shift, !map_map.
    change (after fn 0 s) with s. change (after fn 1 s) with (next fn s).
    rewrite Hfn. cbn [calls fst].
    f_equal.
    + f_equal. f_equal. apply map_ext. intros j. now rewrite after_next.
    + f_equal. f_equal. apply map_ext. intros j. now rewrite after_next.
Qed.

(** With at least one step allowed, [scan] ends on the outputs of its
    last step. *)
Lemma scan_last (HT : never_raises fn) (n : nat) (s : S) :
  (1 <= n)%nat ->
  exists k xs,
    iterations fn n s = Datatypes.S k /\
    outcome (scan fn n s) = inr (xs ++ [after fn (Datatypes.S k) s]).
Proof.
  intros Hn. pose proof (iterations_pos n s Hn) as Hp.
  destruct (iterations fn n s) as [|k] eqn:Ek; [lia|].
  exists k. eexists. split; [reflexivity|].
  rewrite (scan_run HT), Ek. cbn [outcome snd].
  rewrite seq_S, map_app. reflexivity.
Qed.

Lemma scan_calls (HT : never_raises fn) (n : nat) (s : S) :
  calls (scan fn n s) =
  List.concat (map (fun j => calls (fn (after fn j s)))
                   (seq 0 (iterations fn n s))).
Proof. now rewrite (scan_run HT). Qed.
End ScanFacts.

Lemma concat_map_singleton {A B} (g : A -> B) (xs : list A) :
  List.concat (map (fun x => [g x]) xs) = map g xs.
Proof. induction xs as [|x xs IH]; cbn; [easy | now rewrite IH]. Qed.

(** ** interval_location *)

Section IntervalLocationFacts.
Variable f : R -> sample.
Variables minstep maxstep : R.

Let frb := find_right_bound f maxstep.

Lemma find_right_bound_eq (prev : sample) (step : R) :
  find_right_bound f maxstep (prev, step) =
  let step' := if gt prev (f step) then Rmin (2 * step) maxstep
               else step in
  ([step], inr ((f step, step'), lt prev (f step) || Rltb maxstep step')).
Proof. reflexivity. Qed.

Lemma find_right_bound_never_raises : never_raises frb.
Proof. intros [prev step]. eexists. reflexivity. Qed.

Lemma next_find_right_bound (prev : sample) (step : R) :
  next frb (prev, step) =
  (f step, if gt prev (f step) then Rmin (2 * step) maxstep else step).
Proof. reflexivity. Qed.

Lemma stops_find_right_bound (prev : sample) (step : R) :
  stops frb (prev, step) =
  lt prev (f step) || Rltb maxstep (snd (next frb (prev, step))).
Proof. reflexivity. Qed.

Lemma calls_find_right_bound (st : sample * R) :
  calls (frb st) = [snd st].
Proof. destruct st. reflexivity. Qed.

(** The steps of the loop stay between [minstep] and [maxstep]. *)
Lemma step_bounds (k : nat) :
  minstep <= maxstep -> 0 <= minstep ->
  minstep <= snd (after frb k (PInf, minstep)) <= maxstep.
Proof.
  intros Hle Hpos. induction k as [|k IH]; [cbn; lra|].
  change (after frb (S k) (PInf, minstep))
    with (next frb (after frb k (PInf, minstep))).
  destruct (after frb k (PInf, minstep)) as [prev step].
  rewrite next_find_right_bound. cbn [snd] in *.
  destruct (gt prev (f step)); cbn [snd]; [|exact IH].
  unfold Rmin. destruct (Rle_dec (2 * step) maxstep); lra.
Qed.

(** What [interval_location] evaluates and returns, in terms of the
    steps of its loop. *)
Lemma interval_location_run (maxiter : Z) :
  (1 <= maxiter)%Z ->
  exists k,
    iterations frb (Z.to_nat maxiter) (PInf, minstep) = S k /\
    interval_location f minstep maxstep maxiter =
    (map (fun j => snd (after frb j (PInf, minstep))) (seq 0 (S k)),
     inr (snd (after frb (S k) (PInf, minstep)))).
Proof.
  intros Hm.
  destruct (scan_last frb find_right_bound_never_raises
              (Z.to_nat maxiter) (PInf, minstep)) as (k & xs & Hk & Hlast);
    [lia|].
  exists k. split; [exact Hk|].
  pose proof (scan_calls frb find_right_bound_never_raises
                (Z.to_nat maxiter) (PInf, minstep)) as Hcalls.
  unfold interval_location. fold frb.
  destruct (scan frb (Z.to_nat maxiter) (PInf, minstep)) as [l o].
  cbn [calls outcome fst snd] in Hcalls, Hlast. subst l o.
  rewrite bind_inr, map_app. cbn [map]. rewrite last_output_snoc.
  cbn [calls outcome ret fst snd]. rewrite app_nil_r, Hk. f_equal.
  rewrite (map_ext _ (fun j => [snd (after frb j (PInf, minstep))]))
    by (intros j; apply calls_find_right_bound).
  apply concat_map_singleton.
Qed.

Lemma interval_location_bounds (maxiter : Z) :
  minstep <= maxstep -> 0 <= minstep -> (1 <= maxiter)%Z ->
  exists r, outcome (interval_location f minstep maxstep maxiter) = inr r /\
            minstep <= r <= maxstep.
Proof.
  intros Hle Hpos Hm.
  destruct (interval_location_run maxiter Hm) as (k & _ & ->).
  eexists. split; [reflexivity|]. now apply step_bounds.
Qed.
End IntervalLocationFacts.

(** C5. For every objective [f], every [0 < minstep < maxstep] and every
    [maxiter >= 1], [interval_location] returns a value, and that value
    lies in the closed interval [[minstep, maxstep]]. *)
Theorem interval_location_in_range
  (f : R -> sample) (minstep maxstep : R) (maxiter : Z) :
  0 < minstep -> minstep < maxstep -> (1 <= maxiter)%Z ->
  exists r, outcome (interval_location f minstep maxstep maxiter) = inr r /\
            minstep <= r <= maxstep.
Proof.
  intros H0 H1 H2. apply interval_location_bounds; lra || assumption.
Qed.

Lemma interval_location_in_range_witness :
  exists r,
    outcome (interval_location (fun x => Fin ((x - 3) * (x - 3) + 1))
                               (1 / 100000) 50 1024) = inr r /\
    1 / 100000 <= r <= 50.
Proof.
  apply interval_location_in_range; [lra | lra | lia].
Defined.

(** ** The golden ratio *)

Lemma sqrt5_sq : sqrt 5 * sqrt 5 = 5.
Proof. apply sqrt_sqrt. lra. Qed.

Lemma sqrt5_bounds : 2 < sqrt 5 < 3.
Proof.
  pose proof sqrt5_sq as H. pose proof (sqrt_pos 5) as H0.
  split; nra.
Qed.

Lemma golden_ratio_sq : golden_ratio * golden_ratio = 1 - golden_ratio.
Proof. unfold golden_ratio. pose proof sqrt5_sq as H. nra. Qed.

Lemma golden_ratio_bounds : 1 / 2 < golden_ratio < 1.
Proof. unfold golden_ratio. pose proof sqrt5_bounds. lra. Qed.

(** ** golden_search *)

Section GoldenSearchFacts.
Variable f : R -> sample.
Variable tol : R.

Let red := interval_reduction f tol.

Lemma interval_reduction_eq (br : bracket) :
  interval_reduction f tol br =
  ([inner_c br; inner_d br],
   inr (golden_section_rule f br,
        Rltb (Rabs (inner_c (golden_section_rule f br)
                    - inner_d (golden_section_rule f br))) tol)).
Proof.
  destruct br as [[[a b] c] d].
  unfold interval_reduction, golden_section_rule, call.
  rewrite !bind_inr. cbn [calls outcome fst snd inner_c inner_d].
  destruct (lt (f c) (f d)); reflexivity.
Qed.

Lemma interval_reduction_never_raises : never_raises red.
Proof. intros br. unfold red. rewrite interval_reduction_eq. eexists. reflexivity. Qed.

Lemma next_interval_reduction (br : bracket) :
  next red br = golden_section_rule f br.
Proof. unfold next, red. now rewrite interval_reduction_eq. Qed.

Lemma stops_interval_reduction (br : bracket) :
  stops red br =
  Rltb (Rabs (inner_c (next red br) - inner_d (next red br))) tol.
Proof.
  rewrite next_interval_reduction. unfold stops, red.
  now rewrite interval_reduction_eq.
Qed.

Lemma calls_interval_reduction (br : bracket) :
  calls (red br) = [inner_c br; inner_d br].
Proof. unfold red. now rewrite interval_reduction_eq. Qed.

Lemma after_interval_reduction (k : nat) (br : bracket) :
  after red k br = Nat.iter k (golden_section_rule f) br.
Proof.
  induction k as [|k IH]; [reflexivity|].
  change (after red (S k) br) with (next red (after red k br)).
  rewrite next_interval_reduction, IH. reflexivity.
Qed.

(** What [golden_search] evaluates and returns, in terms of the brackets
    of its loop. *)
Lemma golden_search_run (maxstep : R) (maxiter : Z) :
  (1 <= maxiter)%Z ->
  exists k,
    iterations red (Z.to_nat maxiter) (initial_bracket maxstep) = S k /\
    golden_search f maxstep maxiter tol =
    (List.concat
       (map (fun j => let br := after red j (initial_bracket maxstep) in
                      [inner_c br; inner_d br])
            (seq 0 (S k))),
     inr (midpoint (after red (S k) (initial_bracket maxstep)))).
Proof.
  intros Hm.
  destruct (scan_last red interval_reduction_never_raises
              (Z.to_nat maxiter) (initial_bracket maxstep))
    as (k & xs & Hk & Hlast); [lia|].
  exists k. split; [exact Hk|].
  pose proof (scan_calls red interval_reduction_never_raises
                (Z.to_nat maxiter) (initial_bracket maxstep)) as Hcalls.
  unfold golden_search. fold red.
  destruct (scan red (Z.to_nat maxiter) (initial_bracket maxstep)) as [l o].
  cbn [calls outcome fst snd] in Hcalls, Hlast. subst l o.
  rewrite bind_inr, last_output_snoc, bind_ret.
  rewrite Hk.
  destruct (after red (S k) (initial_bracket maxstep)) as [[[a b] c] d].
  cbn [calls outcome ret fst snd]. rewrite app_nil_r. f_equal.
  f_equal. apply map_ext. intros j. apply calls_interval_reduction.
Qed.
End GoldenSearchFacts.

Lemma golden_shape_initial (maxstep : R) :
  golden_shape (initial_bracket maxstep).
Proof. split; reflexivity. Qed.

Lemma golden_shape_rule (f : R -> sample) (br : bracket) :
  golden_shape br -> golden_shape (golden_section_rule f br).
Proof.
  destruct br as [[[a b] c] d]. unfold golden_shape, golden_section_rule.
  cbn. intros [Hc Hd].
  assert (Hq : golden_ratio * golden_ratio * (b - a)
               = (1 - golden_ratio) * (b - a))
    by (now rewrite golden_ratio_sq).
  destruct (lt (f c) (f d)); cbn; split; subst; lra.
Qed.

Lemma golden_shape_iter (f : R -> sample) (k : nat) (maxstep : R) :
  golden_shape (Nat.iter k (golden_section_rule f) (initial_bracket maxstep)).
Proof.
  induction k as [|k IH]; [apply golden_shape_initial|].
  rewrite Nat.iter_succ. now apply golden_shape_rule.
Qed.

Lemma width_rule (f : R -> sample) (br : bracket) :
  golden_shape br ->
  width (golden_section_rule f br) = golden_ratio * width br.
Proof.
  destruct br as [[[a b] c] d]. unfold golden_shape, golden_section_rule, width.
  cbn. intros [Hc Hd].
  destruct (lt (f c) (f d)); cbn; subst; lra.
Qed.

Lemma width_iter (f : R -> sample) (k : nat) (maxstep : R) :
  width (Nat.iter k (golden_section_rule f) (initial_bracket maxstep))
  = golden_ratio ^ k * maxstep.
Proof.
  induction k as [|k IH].
  - cbn. unfold width. cbn. lra.
  - rewrite Nat.iter_succ, width_rule by apply golden_shape_iter.
    rewrite IH. cbn. lra.
Qed.

Lemma length_concat_pairs {A} (g h : nat -> A) (xs : list nat) :
  List.length (List.concat (map (fun j => [g j; h j]) xs))
  = (2 * List.length xs)%nat.
Proof. induction xs as [|x xs IH]; cbn; [easy | rewrite IH; lia]. Qed.

(** [golden_search] against the rule of the specification: the loop makes
    [n] reductions, [1 <= n <= maxiter], none of the first [n - 1] reaches
    the tolerance, and the [n]-th does unless the budget ran out. *)
Lemma golden_search_spec (f : R -> sample) (maxstep : R) (maxiter : Z)
  (tol : R) :
  (1 <= maxiter)%Z ->
  let B k := Nat.iter k (golden_section_rule f) (initial_bracket maxstep) in
  exists n,
    (1 <= n <= Z.to_nat maxiter)%nat /\
    iterations (interval_reduction f tol) (Z.to_nat maxiter)
               (initial_bracket maxstep) = n /\
    golden_search f maxstep maxiter tol =
      (List.concat (map (fun k => [inner_c (B k); inner_d (B k)]) (seq 0 n)),
       inr (midpoint (B n))) /\
    (forall k, (1 <= k < n)%nat ->
               tol <= Rabs (inner_c (B k) - inner_d (B k))) /\
    (n = Z.to_nat maxiter \/ Rabs (inner_c (B n) - inner_d (B n)) < tol).
Proof.
  intros Hm B.
  destruct (golden_search_run f tol maxstep maxiter Hm) as (k & Hk & Hrun).
  set (red := interval_reduction f tol) in *.
  set (init := initial_bracket maxstep) in *.
  assert (HB : forall j, after red j init = B j)
    by (intros j; apply after_interval_reduction).
  exists (S k). repeat split.
  - lia.
  - rewrite <- Hk. apply iterations_le.
  - exact Hk.
  - rewrite Hrun, HB. f_equal. f_equal. apply map_ext.
    intros j. cbv zeta. now rewrite HB.
  - intros j Hj. destruct j as [|j]; [lia|].
    assert (Hr : stops red (after red j init) = false)
      by (apply (iterations_running red (Z.to_nat maxiter)); lia).
    unfold red in Hr at 1. rewrite stops_interval_reduction in Hr.
    fold red in Hr.
    change (next red (after red j init)) with (after red (S j) init) in Hr.
    rewrite HB in Hr. now apply Rltb_false.
  - destruct (iterations_end red (Z.to_nat maxiter) init)
      as [H | (j & H1 & H2)].
    + left. now rewrite <- Hk.
    + right. rewrite Hk in H1. injection H1 as <-.
      unfold red in H2 at 1. rewrite stops_interval_reduction in H2.
      fold red in H2.
      change (next red (after red k init)) with (after red (S k) init) in H2.
      rewrite HB in H2. now apply Rltb_true.
Qed.

(** C7. In [golden_search], each iteration of [interval_reduction]
    multiplies the bracket width [b - a] by exactly the golden ratio,
    whichever branch is taken: the new bracket is [(a, d)] with
    [d - a = phi (b - a)] when [f c < f d], and [(c, b)] with
    [b - c = phi (b - a)] otherwise.  Here [br] is the bracket after [k]
    iterations of the loop and [br'] the one after the next iteration. *)
Theorem interval_reduction_width
  (f : R -> sample) (tol maxstep : R) (k : nat) :
  let br := after (interval_reduction f tol) k (initial_bracket maxstep) in
  let br' := next (interval_reduction f tol) br in
  width br' = golden_ratio * width br /\
  if lt (f (inner_c br)) (f (inner_d br))
  then lower br' = lower br /\ upper br' = inner_d br /\
       inner_d br - lower br = golden_ratio * (upper br - lower br)
  else lower br' = inner_c br /\ upper br' = upper br /\
       upper br - inner_c br = golden_ratio * (upper br - lower br).
Proof.
  intros br br'. subst br'.
  rewrite next_interval_reduction.
  assert (Hs : golden_shape br).
  { subst br. rewrite after_interval_reduction. apply golden_shape_iter. }
  split; [now apply width_rule|].
  clearbody br. destruct br as [[[a b] c] d].
  destruct Hs as [Hc Hd]. cbn in Hc, Hd. cbn.
  destruct (lt (f c) (f d)); cbn; repeat split; lra.
Qed.

(** C1. For [maxstep > 0], [maxiter >= 1] and [tol > 0], [golden_search]
    follows the golden-section rule.  From the bracket [a = 0],
    [b = maxstep], [c = b - phi (b - a)], [d = a + phi (b - a)], every
    iteration evaluates [f c] then [f d] and replaces the bracket as
    [golden_section_rule] says; the loop makes [n] iterations, where [n] is
    the first iteration after which [|c - d| < tol], or [maxiter] if there
    is none before; the result is [(a + b) / 2] of the bracket after them. *)
Theorem golden_search_follows_rule
  (f : R -> sample) (maxstep : R) (maxiter : Z) (tol : R) :
  0 < maxstep -> (1 <= maxiter)%Z -> 0 < tol ->
  let phi := (sqrt 5 - 1) / 2 in
  let bracket_at k :=
    Nat.iter k (golden_section_rule f)
      (0, maxstep, maxstep - phi * (maxstep - 0), 0 + phi * (maxstep - 0)) in
  exists n,
    (1 <= n <= Z.to_nat maxiter)%nat /\
    (forall k, (1 <= k < n)%nat ->
       ~ Rabs (inner_c (bracket_at k) - inner_d (bracket_at k)) < tol) /\
    (n = Z.to_nat maxiter \/
     Rabs (inner_c (bracket_at n) - inner_d (bracket_at n)) < tol) /\
    calls (golden_search f maxstep maxiter tol) =
      List.concat
        (map (fun k => [inner_c (bracket_at k); inner_d (bracket_at k)])
             (seq 0 n)) /\
    outcome (golden_search f maxstep maxiter tol) =
      inr ((lower (bracket_at n) + upper (bracket_at n)) / 2).
Proof.
  intros _ Hm _ phi bracket_at.
  destruct (golden_search_spec f maxstep maxiter tol Hm)
    as (n & Hn & _ & Hrun & Hbefore & Hend).
  exists n. split; [exact Hn|]. split; [|split; [exact Hend|]].
  - intros k Hk Hlt. specialize (Hbefore k Hk).
    change (tol <= Rabs (inner_c (bracket_at k) - inner_d (bracket_at k)))
      in Hbefore. lra.
  - rewrite Hrun. split; reflexivity.
Qed.

Lemma golden_search_follows_rule_witness :
  let f := fun x => Fin ((x - 10) * (x - 10)) in
  let phi := (sqrt 5 - 1) / 2 in
  let bracket_at k :=
    Nat.iter k (golden_section_rule f)
      (0, 50, 50 - phi * (50 - 0), 0 + phi * (50 - 0)) in
  exists n,
    (1 <= n <= Z.to_nat 1024)%nat /\
    (forall k, (1 <= k < n)%nat ->
       ~ Rabs (inner_c (bracket_at k) - inner_d (bracket_at k))
         < 1 / 100000) /\
    (n = Z.to_nat 1024 \/
     Rabs (inner_c (bracket_at n) - inner_d (bracket_at n)) < 1 / 100000) /\
    calls (golden_search f 50 1024 (1 / 100000)) =
      List.concat
        (map (fun k => [inner_c (bracket_at k); inner_d (bracket_at k)])
             (seq 0 n)) /\
    outcome (golden_search f 50 1024 (1 / 100000)) =
      inr ((lower (bracket_at n) + upper (bracket_at n)) / 2).
Proof.
  apply (golden_search_follows_rule
           (fun x => Fin ((x - 10) * (x - 10))) 50 1024 (1 / 100000));
    [lra | lia | lra].
Defined.

(** C9. Both loops end within [maxiter] iterations for every objective
    and every [maxiter >= 1], and return a value instead of raising.  The
    number of iterations is read off the evaluations of [f] (one per
    iteration in [interval_location], two in [golden_search]).  When the
    stop rule is never set, exactly [maxiter] iterations are made and the
    result is the last step reached, respectively the midpoint of the
    last bracket. *)
Theorem loops_terminate_within_maxiter
  (f : R -> sample) (minstep maxstep : R) (maxiter : Z) (tol : R) :
  (1 <= maxiter)%Z ->
  let n_steps := Z.to_nat maxiter in
  let frb := find_right_bound f maxstep in
  let red := interval_reduction f tol in
  (exists r k,
     outcome (interval_location f minstep maxstep maxiter) = inr r /\
     List.length (calls (interval_location f minstep maxstep maxiter)) = k /\
     (1 <= k <= n_steps)%nat /\
     r = snd (after frb k (PInf, minstep)) /\
     ((forall j, (j < n_steps)%nat ->
                 stops frb (after frb j (PInf, minstep)) = false) ->
      k = n_steps)) /\
  (exists r k,
     outcome (golden_search f maxstep maxiter tol) = inr r /\
     List.length (calls (golden_search f maxstep maxiter tol))
       = (2 * k)%nat /\
     (1 <= k <= n_steps)%nat /\
     r = midpoint (after red k (initial_bracket maxstep)) /\
     ((forall j, (j < n_steps)%nat ->
                 stops red (after red j (initial_bracket maxstep)) = false) ->
      k = n_steps)).
Proof.
  intros Hm n_steps frb red. split.
  - destruct (interval_location_run f minstep maxstep maxiter Hm)
      as (k & Hk & Hrun).
    fold frb in Hk, Hrun. fold n_steps in Hk.
    exists (snd (after frb (S k) (PInf, minstep))), (S k).
    rewrite Hrun. cbn [outcome calls fst snd].
    split; [reflexivity|]. split; [now rewrite length_map, length_seq|].
    split; [|split; [reflexivity|]].
    + split; [lia|]. rewrite <- Hk. apply iterations_le.
    + intros Hnever. rewrite <- Hk. now apply iterations_full.
  - destruct (golden_search_run f tol maxstep maxiter Hm)
      as (k & Hk & Hrun).
    fold red in Hk, Hrun. fold n_steps in Hk.
    exists (midpoint (after red (S k) (initial_bracket maxstep))), (S k).
    rewrite Hrun. cbn [outcome calls fst snd].
    split; [reflexivity|].
    split; [now rewrite length_concat_pairs, length_seq|].
    split; [|split; [reflexivity|]].
    + split; [lia|]. rewrite <- Hk. apply iterations_le.
    + intros Hnever. rewrite <- Hk. now apply iterations_full.
Qed.

Lemma loops_terminate_within_maxiter_witness :
  let f := fun x => Fin ((x - 3) * (x - 3) + 1) in
  let frb := find_right_bound f 50 in
  let red := interval_reduction f (1 / 100000) in
  (exists r k,
     outcome (interval_location f (1 / 100000) 50 1024) = inr r /\
     List.length (calls (interval_location f (1 / 100000) 50 1024)) = k /\
     (1 <= k <= Z.to_nat 1024)%nat /\
     r = snd (after frb k (PInf, 1 / 100000)) /\
     ((forall j, (j < Z.to_nat 1024)%nat ->
                 stops frb (after frb j (PInf, 1 / 100000)) = false) ->
      k = Z.to_nat 1024)) /\
  (exists r k,
     outcome (golden_search f 50 1024 (1 / 100000)) = inr r /\
     List.length (calls (golden_search f 50 1024 (1 / 100000)))
       = (2 * k)%nat /\
     (1 <= k <= Z.to_nat 1024)%nat /\
     r = midpoint (after red k (initial_bracket 50)) /\
     ((forall j, (j < Z.to_nat 1024)%nat ->
                 stops red (after red j (initial_bracket 50)) = false) ->
      k = Z.to_nat 1024)).
Proof.
  apply (loops_terminate_within_maxiter
           (fun x => Fin ((x - 3) * (x - 3) + 1))
           (1 / 100000) 50 1024 (1 / 100000)).
  lia.
Defined.

(** ** interval_location on flat and on decreasing objectives *)

Lemma Rmin_double (x m : R) :
  0 < x -> 0 <= m -> Rmin (2 * Rmin x m) m = Rmin (2 * x) m.
Proof.
  intros Hx Hm. unfold Rmin.
  repeat destruct (Rle_dec _ _); lra.
Qed.

Section FlatObjective.
Variable v : R.
Variables minstep maxstep : R.
Hypothesis Hle : minstep <= maxstep.

Let f : R -> sample := fun _ => Fin v.
Let frb := find_right_bound f maxstep.

(** After the first iteration the step is [min (2 minstep) maxstep], and
    it does not move any more: equal samples are no decrease. *)
Lemma flat_after (k : nat) :
  after frb (S k) (PInf, minstep) = (Fin v, Rmin (2 * minstep) maxstep).
Proof.
  induction k as [|k IH]; [reflexivity|].
  change (after frb (S (S k)) (PInf, minstep))
    with (next frb (after frb (S k) (PInf, minstep))).
  rewrite IH. unfold frb. rewrite next_find_right_bound.
  unfold f, gt. rewrite lt_Fin.
  assert (H : Rltb v v = false) by (apply Rltb_false; lra).
  now rewrite H.
Qed.

Lemma interval_location_flat (maxiter : Z) :
  (1 <= maxiter)%Z ->
  outcome (interval_location f minstep maxstep maxiter)
  = inr (Rmin (2 * minstep) maxstep).
Proof.
  intros Hm.
  destruct (interval_location_run f minstep maxstep maxiter Hm)
    as (k & _ & ->).
  cbn [outcome snd]. fold frb. now rewrite flat_after.
Qed.
End FlatObjective.

Section DecreasingObjective.
Variable g : R -> R.
Variables minstep maxstep : R.
Hypothesis Hpos : 0 < minstep.
Hypothesis Hle : minstep <= maxstep.
Hypothesis Hdec :
  forall x y, minstep <= x -> x < y -> y <= maxstep -> g y < g x.

Let f : R -> sample := fun x => Fin (g x).
Let frb := find_right_bound f maxstep.
Let s (k : nat) : R := Rmin (2 ^ k * minstep) maxstep.

Lemma doubling_bounds (k : nat) : minstep <= s k <= maxstep.
Proof.
  unfold s. assert (1 <= 2 ^ k) by (apply pow_R1_Rle; lra).
  unfold Rmin. destruct (Rle_dec _ _); nra.
Qed.

Lemma doubling_next (k : nat) : Rmin (2 * s k) maxstep = s (S k).
Proof.
  unfold s. assert (0 < 2 ^ k) by (apply pow_lt; lra).
  assert (0 < 2 ^ k * minstep) by (now apply Rmult_lt_0_compat).
  rewrite Rmin_double by (assumption || lra). f_equal. cbn. lra.
Qed.

Lemma doubling_mono (k : nat) : s k <= s (S k).
Proof.
  unfold s. assert (0 < 2 ^ k) by (apply pow_lt; lra).
  cbn [pow]. unfold Rmin. repeat destruct (Rle_dec _ _); nra.
Qed.

Lemma doubling_stall (k : nat) : s k = s (S k) -> s (S k) = s (S (S k)).
Proof.
  unfold s. assert (0 < 2 ^ k) by (apply pow_lt; lra).
  cbn [pow]. unfold Rmin. repeat destruct (Rle_dec _ _); nra.
Qed.

(** The step doubles at each iteration until it is capped by
    [maxstep]. *)
Lemma decreasing_after (k : nat) :
  after frb (S k) (PInf, minstep) = (Fin (g (s k)), s (S k)).
Proof.
  induction k as [|k IH].
  - change (after frb 1 (PInf, minstep)) with (next frb (PInf, minstep)).
    unfold frb. rewrite next_find_right_bound.
    assert (E : s 0 = minstep).
    { unfold s. cbn. unfold Rmin. destruct (Rle_dec _ _); lra. }
    unfold f, gt. cbn [lt]. rewrite <- doubling_next, E. reflexivity.
  - change (after frb (S (S k)) (PInf, minstep))
      with (next frb (after frb (S k) (PInf, minstep))).
    rewrite IH. unfold frb. rewrite next_find_right_bound.
    unfold f, gt. rewrite lt_Fin. f_equal.
    pose proof (doubling_mono k) as Hm.
    pose proof (doubling_bounds k) as Hk.
    pose proof (doubling_bounds (S k)) as HSk.
    destruct (Rltb (g (s (S k))) (g (s k))) eqn:E.
    + apply doubling_next.
    + apply Rltb_false in E.
      destruct (Rle_lt_or_eq_dec _ _ Hm) as [Hlt | Heq].
      * pose proof (Hdec (s k) (s (S k))). lra.
      * now apply doubling_stall.
Qed.

Lemma decreasing_never_stops (k : nat) :
  stops frb (after frb k (PInf, minstep)) = false.
Proof.
  destruct k as [|k].
  - change (after frb 0 (PInf, minstep)) with (PInf, minstep).
    unfold frb. rewrite stops_find_right_bound. fold frb.
    change (next frb (PInf, minstep)) with (after frb 1 (PInf, minstep)).
    rewrite decreasing_after. cbn [snd lt orb].
    apply Rltb_false. apply doubling_bounds.
  - assert (Hn : next frb (Fin (g (s k)), s (S k))
                 = (Fin (g (s (S k))), s (S (S k))))
      by (rewrite <- !decreasing_after; reflexivity).
    rewrite decreasing_after. unfold frb at 1.
    rewrite stops_find_right_bound. fold frb. rewrite Hn.
    cbn [snd fst]. unfold f. rewrite lt_Fin.
    apply orb_false_intro; apply Rltb_false; [|apply doubling_bounds].
    pose proof (doubling_mono k) as Hm.
    pose proof (doubling_bounds k) as Hk.
    pose proof (doubling_bounds (S k)) as HSk.
    destruct (Rle_lt_or_eq_dec _ _ Hm) as [Hlt | Heq].
    + pose proof (Hdec (s k) (s (S k))). lra.
    + rewrite <- Heq. lra.
Qed.

Lemma interval_location_doubling (maxiter : Z) :
  (1 <= maxiter)%Z ->
  outcome (interval_location f minstep maxstep maxiter)
  = inr (Rmin (2 ^ Z.to_nat maxiter * minstep) maxstep).
Proof.
  intros Hm.
  destruct (interval_location_run f minstep maxstep maxiter Hm)
    as (k & Hk & ->).
  fold frb in Hk |- *. cbn [outcome snd].
  rewrite iterations_full in Hk
    by (intros j _; apply decreasing_never_stops).
  rewrite decreasing_after, Hk. reflexivity.
Qed.
End DecreasingObjective.

(** C3, as amended.  For every finite-valued objective that is strictly
    decreasing on [[minstep, maxstep]], all [0 < minstep < maxstep] and
    every [maxiter >= 1] large enough for the doubling to reach the cap,
    [maxstep <= 2 ^ maxiter * minstep], [interval_location] returns
    exactly [maxstep]. *)
Theorem interval_location_decreasing
  (g : R -> R) (minstep maxstep : R) (maxiter : Z) :
  0 < minstep -> minstep < maxstep -> (1 <= maxiter)%Z ->
  (forall x y, minstep <= x -> x < y -> y <= maxstep -> g y < g x) ->
  maxstep <= 2 ^ Z.to_nat maxiter * minstep ->
  outcome (interval_location (fun x => Fin (g x)) minstep maxstep maxiter)
  = inr maxstep.
Proof.
  intros Hpos Hlt Hm Hdec Hreach.
  rewrite interval_location_doubling by (assumption || lra).
  f_equal. unfold Rmin. destruct (Rle_dec _ _); lra.
Qed.

Lemma interval_location_decreasing_witness :
  outcome (interval_location (fun x => Fin (- x)) 1 50 10) = inr 50.
Proof.
  apply (interval_location_decreasing (fun x => - x) 1 50 10);
    [lra | lra | lia | intros; lra | simpl; lra].
Defined.

(** C3, as stated, fails: on the flat objective [f x = 0], which is
    non-increasing, with the default budget the result is
    [2 * minstep = 2], not [maxstep = 50]; and on the strictly decreasing
    [f x = - x] with [maxiter = 1] the result is [2] as well. *)
Lemma interval_location_nonincreasing_counterexample :
  outcome (interval_location (fun _ => Fin 0) 1 50 1024) = inr 2 /\
  outcome (interval_location (fun x => Fin (- x)) 1 50 1) = inr 2 /\
  2 <> 50.
Proof.
  split; [|split; [|lra]].
  - rewrite interval_location_flat by lia.
    f_equal. unfold Rmin. destruct (Rle_dec _ _); lra.
  - rewrite (interval_location_doubling (fun x => - x))
      by (lra || lia || (intros; lra)).
    f_equal. simpl. unfold Rmin. destruct (Rle_dec _ _); lra.
Qed.

(** ** The brackets of golden_search stay inside [[0, maxstep]] *)

Lemma golden_inner_bounds (a b c d : R) :
  a <= b -> golden_shape (a, b, c, d) -> a <= c /\ c <= d /\ d <= b.
Proof.
  intros Hab [Hc Hd]. cbn in Hc, Hd.
  pose proof golden_ratio_bounds as Hphi.
  assert (0 <= golden_ratio * (b - a)) by (apply Rmult_le_pos; lra).
  assert (golden_ratio * (b - a) <= 1 * (b - a))
    by (apply Rmult_le_compat_r; lra).
  assert (1 / 2 * (b - a) <= golden_ratio * (b - a))
    by (apply Rmult_le_compat_r; lra).
  lra.
Qed.

Lemma bracket_bounds (f : R -> sample) (k : nat) (maxstep : R) :
  0 <= maxstep ->
  let br := Nat.iter k (golden_section_rule f) (initial_bracket maxstep) in
  0 <= lower br /\ lower br <= upper br /\ upper br <= maxstep.
Proof.
  intros Hpos. induction k as [|k IH]; [cbn; lra|].
  cbv zeta in *. rewrite Nat.iter_succ.
  pose proof (golden_shape_iter f k maxstep) as Hs.
  destruct (Nat.iter k (golden_section_rule f) (initial_bracket maxstep))
    as [[[a b] c] d].
  cbn in IH. destruct IH as (Ha & Hab & Hb).
  destruct (golden_inner_bounds a b c d Hab Hs) as (H1 & H2 & H3).
  unfold golden_section_rule. destruct (lt (f c) (f d)); cbn; lra.
Qed.

Lemma golden_search_bounds
  (f : R -> sample) (maxstep : R) (maxiter : Z) (tol : R) :
  0 <= maxstep -> (1 <= maxiter)%Z ->
  exists r, outcome (golden_search f maxstep maxiter tol) = inr r /\
            0 <= r <= maxstep.
Proof.
  intros Hpos Hm.
  destruct (golden_search_spec f maxstep maxiter tol Hm)
    as (n & _ & _ & -> & _).
  eexists. split; [reflexivity|].
  pose proof (bracket_bounds f n maxstep Hpos) as H. cbv zeta in H.
  unfold midpoint. lra.
Qed.

(** ** fmin_golden_search *)

Lemma bind_ret_r {A} (m : M A) : bind m (fun x => ret x) = m.
Proof.
  destruct m as [l [e | x]]; [reflexivity|].
  rewrite bind_inr. cbn. now rewrite app_nil_r.
Qed.

Lemma fmin_golden_search_accepts
  (f : R -> sample) (minstep maxstep : R) (maxiter : Z) (tol : R) :
  (0 < maxiter)%Z -> 0 < minstep -> 0 < maxstep -> 0 < tol ->
  minstep < maxstep ->
  fmin_golden_search f minstep maxstep maxiter tol =
  bind (interval_location f minstep maxstep maxiter)
       (fun bound => golden_search f bound maxiter tol).
Proof.
  intros H1 H2 H3 H4 H5. unfold fmin_golden_search.
  cbn [check_params le_zero].
  assert (E1 : (maxiter <=? 0)%Z = false) by (apply Z.leb_gt; lia).
  assert (E2 : Rleb minstep 0 = false) by (now apply Rleb_false).
  assert (E3 : Rleb maxstep 0 = false) by (now apply Rleb_false).
  assert (E4 : Rleb tol 0 = false) by (now apply Rleb_false).
  assert (E5 : Rleb maxstep minstep = false) by (now apply Rleb_false).
  rewrite E1, E2, E3, E4, E5, !bind_ret.
  destruct (interval_location f minstep maxstep maxiter) as [l [e | bound]];
    [reflexivity|].
  now rewrite !bind_inr, bind_ret_r.
Qed.

(** C4. [fmin_golden_search] raises a [ValueError] that names the first
    of [maxiter], [minstep], [maxstep], [tol] that is [<= 0], and a
    [ValueError] when [minstep >= maxstep]; in all these cases no
    evaluation of [f] was made.  When the parameters are valid nothing is
    raised: [interval_location] runs, then [golden_search] with the bound
    it found, and the result of the latter is returned. *)
Theorem fmin_golden_search_validation
  (f : R -> sample) (minstep maxstep : R) (maxiter : Z) (tol : R) :
  let r := fmin_golden_search f minstep maxstep maxiter tol in
  let error (msg : string) : M R := ([], inl (ValueError msg)) in
  ((maxiter <= 0)%Z ->
   r = error "Parameter `maxiter` should be greater than zero."%string) /\
  ((0 < maxiter)%Z -> minstep <= 0 ->
   r = error "Parameter `minstep` should be greater than zero."%string) /\
  ((0 < maxiter)%Z -> 0 < minstep -> maxstep <= 0 ->
   r = error "Parameter `maxstep` should be greater than zero."%string) /\
  ((0 < maxiter)%Z -> 0 < minstep -> 0 < maxstep -> tol <= 0 ->
   r = error "Parameter `tol` should be greater than zero."%string) /\
  ((0 < maxiter)%Z -> 0 < minstep -> 0 < maxstep -> 0 < tol ->
   minstep >= maxstep ->
   r = error "`minstep` should be smaller than `maxstep`"%string) /\
  ((maxiter <= 0)%Z \/ minstep <= 0 \/ maxstep <= 0 \/ tol <= 0 \/
   minstep >= maxstep ->
   calls r = [] /\ exists msg, outcome r = inl (ValueError msg)) /\
  ((0 < maxiter)%Z -> 0 < minstep -> 0 < maxstep -> 0 < tol ->
   minstep < maxstep ->
   exists bound best,
     outcome (interval_location f minstep maxstep maxiter) = inr bound /\
     outcome (golden_search f bound maxiter tol) = inr best /\
     r = (calls (interval_location f minstep maxstep maxiter)
          ++ calls (golden_search f bound maxiter tol),
          inr best)).
Proof.
  intros r error.
  assert (C1 : (maxiter <= 0)%Z ->
               r = error "Parameter `maxiter` should be greater than zero."%string).
  { intros H. subst r. unfold fmin_golden_search.
    cbn [check_params le_zero].
    assert (E : (maxiter <=? 0)%Z = true) by (now apply Z.leb_le).
    rewrite E. reflexivity. }
  assert (C2 : (0 < maxiter)%Z -> minstep <= 0 ->
               r = error "Parameter `minstep` should be greater than zero."%string).
  { intros H1 H2. subst r. unfold fmin_golden_search.
    cbn [check_params le_zero].
    assert (E1 : (maxiter <=? 0)%Z = false) by (apply Z.leb_gt; lia).
    assert (E2 : Rleb minstep 0 = true) by (now apply Rleb_true).
    rewrite E1, E2. reflexivity. }
  assert (C3 : (0 < maxiter)%Z -> 0 < minstep -> maxstep <= 0 ->
               r = error "Parameter `maxstep` should be greater than zero."%string).
  { intros H1 H2 H3. subst r. unfold fmin_golden_search.
    cbn [check_params le_zero].
    assert (E1 : (maxiter <=? 0)%Z = false) by (apply Z.leb_gt; lia).
    assert (E2 : Rleb minstep 0 = false) by (now apply Rleb_false).
    assert (E3 : Rleb maxstep 0 = true) by (now apply Rleb_true).
    rewrite E1, E2, E3. reflexivity. }
  assert (C4 : (0 < maxiter)%Z -> 0 < minstep -> 0 < maxstep -> tol <= 0 ->
               r = error "Parameter `tol` should be greater than zero."%string).
  { intros H1 H2 H3 H4. subst r. unfold fmin_golden_search.
    cbn [check_params le_zero].
    assert (E1 : (maxiter <=? 0)%Z = false) by (apply Z.leb_gt; lia).
    assert (E2 : Rleb minstep 0 = false) by (now apply Rleb_false).
    assert (E3 : Rleb maxstep 0 = false) by (now apply Rleb_false).
    assert (E4 : Rleb tol 0 = true) by (now apply Rleb_true).
    rewrite E1, E2, E3, E4. reflexivity. }
  assert (C5 : (0 < maxiter)%Z -> 0 < minstep -> 0 < maxstep -> 0 < tol ->
               minstep >= maxstep ->
               r = error "`minstep` should be smaller than `maxstep`"%string).
  { intros H1 H2 H3 H4 H5. subst r. unfold fmin_golden_search.
    cbn [check_params le_zero].
    assert (E1 : (maxiter <=? 0)%Z = false) by (apply Z.leb_gt; lia).
    assert (E2 : Rleb minstep 0 = false) by (now apply Rleb_false).
    assert (E3 : Rleb maxstep 0 = false) by (now apply Rleb_false).
    assert (E4 : Rleb tol 0 = false) by (now apply Rleb_false).
    assert (E5 : Rleb maxstep minstep = true) by (apply Rleb_true; lra).
    rewrite E1, E2, E3, E4, E5. reflexivity. }
  repeat (split; [assumption|]). split.
  - intros H.
    destruct (Z_le_gt_dec maxiter 0) as [Z1 | Z1];
      [rewrite C1 by lia; split; [reflexivity | eexists; reflexivity]|].
    destruct (Rle_lt_dec minstep 0) as [Z2 | Z2];
      [rewrite C2 by (lia || lra);
       split; [reflexivity | eexists; reflexivity]|].
    destruct (Rle_lt_dec maxstep 0) as [Z3 | Z3];
      [rewrite C3 by (lia || lra);
       split; [reflexivity | eexists; reflexivity]|].
    destruct (Rle_lt_dec tol 0) as [Z4 | Z4];
      [rewrite C4 by (lia || lra);
       split; [reflexivity | eexists; reflexivity]|].
    assert (Z5 : minstep >= maxstep)
      by (destruct H as [H | [H | [H | [H | H]]]]; lia || lra).
    rewrite C5 by (lia || lra). split; [reflexivity | eexists; reflexivity].
  - intros H1 H2 H3 H4 H5. subst r.
    rewrite fmin_golden_search_accepts by assumption.
    destruct (interval_location_bounds f minstep maxstep maxiter)
      as (bound & Hb & Hrange); [lra | lra | lia |].
    destruct (golden_search_bounds f bound maxiter tol)
      as (best & Hbest & _); [lra | lia |].
    exists bound, best. split; [exact Hb|]. split; [exact Hbest|].
    destruct (interval_location f minstep maxstep maxiter) as [l o].
    cbn [outcome snd] in Hb. subst o. rewrite bind_inr.
    cbn [calls fst]. now rewrite Hbest.
Qed.

Lemma fmin_golden_search_validation_witness :
  fmin_golden_search (fun x => Fin ((x - 3) * (x - 3) + 1))
                     (1 / 100000) 50 1024 0
  = ([], inl (ValueError "Parameter `tol` should be greater than zero.")).
Proof.
  apply (fmin_golden_search_validation
           (fun x => Fin ((x - 3) * (x - 3) + 1)) (1 / 100000) 50 1024 0);
    [lia | lra | lra | lra].
Defined.

(** ** LinearSearch.train_epoch *)

Section LinearSearchFacts.
Variable var : Type.
Variable var_eq_dec : forall x y : var, {x = y} + {x <> y}.
Variable value : Type.
Variable float_value : R -> value.
Variable params : list var.
Variable step : var.
Variable methods_train_epoch : store var value -> store var value.
Variable methods_prediction_error : store var value -> sample.

Local Abbreviation net := (network var value).
Local Abbreviation set := (set_value var var_eq_dec value).
Local Abbreviation setup :=
  (setup_new_step var var_eq_dec value float_value params step
                  methods_train_epoch methods_prediction_error).
Local Abbreviation snap := (with_step var var_eq_dec value float_value step).
Local Abbreviation trial_at :=
  (trial var var_eq_dec value float_value step
         methods_train_epoch methods_prediction_error).
Local Abbreviation outside := (same_outside var value params step).

(** The loop over [zip(param_defaults, params)] puts every listed
    variable back to its captured value and touches no other. *)
Lemma reset_params (s0 : store var value) (l : list var) (g : net) :
  let g' := fold_left
              (fun g (pp : value * var) =>
                 let (param_default, param) := pp in
                 set param param_default g)
              (combine (map s0 l) l) g in
  trained_on _ _ g' = trained_on _ _ g /\
  forall x, shared _ _ g' x = if in_dec var_eq_dec x l then s0 x
                              else shared _ _ g x.
Proof.
  revert g. induction l as [|p l IH]; intros g; [now split|].
  cbn [map combine fold_left].
  destruct (IH (set p (s0 p) g)) as [Ht Hs].
  split; [now rewrite Ht|]. intros x. rewrite Hs.
  cbn [shared set_value].
  destruct (in_dec var_eq_dec x l) as [Hin | Hin];
    destruct (in_dec var_eq_dec x (p :: l)) as [Hin' | Hin'];
    try reflexivity.
  - exfalso. apply Hin'. now right.
  - destruct (var_eq_dec x p) as [-> | Hne]; [reflexivity|].
    exfalso. destruct Hin' as [-> | H]; [now apply Hne | now apply Hin].
  - destruct (var_eq_dec x p) as [-> | Hne]; [|reflexivity].
    exfalso. apply Hin'. now left.
Qed.

Lemma store_before_update (s0 : store var value) (new_step : R)
  (g : net) :
  outside s0 g ->
  shared _ _
    (set step (float_value new_step)
       (fold_left
          (fun g (pp : value * var) =>
             let (param_default, param) := pp in
             set param param_default g)
          (combine (map s0 params) params) g))
  = snap s0 new_step.
Proof.
  intros Hg. apply functional_extensionality. intros x.
  destruct (reset_params s0 params g) as [_ Hs]. cbv zeta in Hs.
  cbn [shared set_value]. unfold with_step.
  destruct (var_eq_dec x step) as [-> | Hne]; [reflexivity|].
  rewrite Hs. destruct (in_dec var_eq_dec x params); [reflexivity|].
  now apply Hg.
Qed.

Lemma setup_new_step_eq (s0 : store var value) (new_step : R)
  (g : net) :
  outside s0 g ->
  setup (map s0 params) new_step g =
  (trial_at s0 new_step,
   {| shared := methods_train_epoch (snap s0 new_step);
      trained_on := trained_on _ _ g ++ [snap s0 new_step] |}).
Proof.
  intros Hg. unfold setup_new_step, train_epoch_call.
  rewrite store_before_update by assumption.
  cbn [shared trained_on set_value].
  destruct (reset_params s0 params g) as [Ht _]. cbv zeta in Ht.
  rewrite Ht. reflexivity.
Qed.
(** From here on the compiled training function is assumed to assign
    the variables listed in [init_train_updates()] and no other, which is
    how a Theano function with [updates] behaves. *)
Hypothesis train_epoch_updates_params :
  forall s x, ~ In x params -> methods_train_epoch s x = s x.

Lemma minimize_eq (s0 : store var value) (m : minimizer) (g : net) :
  outside s0 g ->
  exists g',
    minimize var value m (setup (map s0 params)) g
    = (answer m (trial_at s0), g') /\
    outside s0 g' /\
    trained_on _ _ g'
    = trained_on _ _ g ++ map (snap s0) (queries m (trial_at s0)).
Proof.
  revert g. induction m as [x | x k IH]; intros g Hg.
  - exists g. cbn. rewrite app_nil_r. now repeat split.
  - cbn [minimize answer queries].
    rewrite setup_new_step_eq by assumption.
    match goal with
    | |- context [minimize _ _ _ _ ?g1] =>
        destruct (IH (trial_at s0 x) g1) as (g' & Hrun & Hout & Hlog)
    end.
    + intros y Hy Hne. cbn [shared].
      rewrite train_epoch_updates_params by assumption.
      unfold with_step. now destruct (var_eq_dec y step).
    + exists g'. split; [exact Hrun|]. split; [exact Hout|].
      rewrite Hlog. cbn [trained_on map]. now rewrite <- app_assoc.
Qed.
End LinearSearchFacts.

(** C8. Each trial of [train_epoch] runs its single training update on
    the store captured at the start of the epoch, with only the shared
    step changed to the trial's step, so no trial sees the updates of
    another; when [train_epoch] returns, the store is the result of one
    update made from the captured store at the step the minimizer
    answered, and the error returned is the error of that update (made
    [+inf] when it is [nan]).  The training function is taken to assign
    the listed variables only. *)
Theorem train_epoch_trials_from_snapshot
  (var : Type) (var_eq_dec : forall x y : var, {x = y} + {x <> y})
  (value : Type) (float_value : R -> value)
  (params : list var) (step : var)
  (methods_train_epoch : store var value -> store var value)
  (methods_prediction_error : store var value -> sample)
  (minimize_scalar : R -> search_method -> Z -> minimizer)
  (tol : R) (method : search_method) (maxiter : Z)
  (g : network var value) :
  (forall s x, ~ In x params -> methods_train_epoch s x = s x) ->
  let snapshot := with_step var var_eq_dec value float_value step
                            (shared _ _ g) in
  let objective := trial var var_eq_dec value float_value step
                         methods_train_epoch methods_prediction_error
                         (shared _ _ g) in
  let m := minimize_scalar tol method maxiter in
  let best := answer m objective in
  train_epoch var var_eq_dec value float_value params step
              methods_train_epoch methods_prediction_error minimize_scalar
              tol method maxiter g
  = (objective best,
     {| shared := methods_train_epoch (snapshot best);
        trained_on := trained_on _ _ g
                      ++ map snapshot (queries m objective ++ [best]) |}).
Proof.
  intros Hframe snapshot objective m best. unfold train_epoch.
  change (map (fun param => get_value var value param g) params)
    with (map (shared _ _ g) params).
  destruct (minimize_eq var var_eq_dec value float_value params step
              methods_train_epoch methods_prediction_error Hframe
              (shared _ _ g) m g) as (g' & Hrun & Hout & Hlog);
    [now intros x _ _|].
  fold m. rewrite Hrun, setup_new_step_eq by assumption.
  rewrite Hlog, map_app, <- app_assoc. reflexivity.
Qed.


Lemma train_epoch_trials_from_snapshot_witness :
  let snapshot := with_step nat Nat.eq_dec R (fun x => x) toy_step
                            (shared _ _ toy_network) in
  let objective := trial nat Nat.eq_dec R (fun x => x) toy_step
                         toy_train_epoch toy_prediction_error
                         (shared _ _ toy_network) in
  let m := toy_minimize_scalar (1 / 10) golden 1024 in
  let best := answer m objective in
  train_epoch nat Nat.eq_dec R (fun x => x) toy_params toy_step
              toy_train_epoch toy_prediction_error toy_minimize_scalar
              (1 / 10) golden 1024 toy_network
  = (objective best,
     {| shared := toy_train_epoch (snapshot best);
        trained_on := trained_on _ _ toy_network
                      ++ map snapshot (queries m objective ++ [best]) |}).
Proof.
  apply (train_epoch_trials_from_snapshot
           nat Nat.eq_dec R (fun x => x) toy_params toy_step
           toy_train_epoch toy_prediction_error toy_minimize_scalar
           (1 / 10) golden 1024 toy_network).
  intros s x Hx. unfold toy_train_epoch.
  destruct (Nat.eq_dec x 0) as [-> | Hne]; [|reflexivity].
  exfalso. apply Hx. now left.
Defined.

(** C2, as amended.  The value that [setup_new_step] returns is [+inf]
    when the measured error is [nan] or [+inf], and then it is below no
    other sample; any other error, [-inf] included, is returned as it is.
    The returned value is never [nan]. *)
Theorem setup_new_step_replaces_nan
  (var : Type) (var_eq_dec : forall x y : var, {x = y} + {x <> y})
  (value : Type) (float_value : R -> value)
  (params : list var) (step : var)
  (methods_train_epoch : store var value -> store var value)
  (methods_prediction_error : store var value -> sample)
  (param_defaults : list value) (new_step : R) (g : network var value) :
  let r := setup_new_step var var_eq_dec value float_value params step
                          methods_train_epoch methods_prediction_error
                          param_defaults new_step g in
  let error := methods_prediction_error (shared _ _ (snd r)) in
  match error with
  | NaN | PInf => fst r = PInf /\ forall v, lt (fst r) v = false
  | NInf => fst r = NInf
  | Fin x => fst r = Fin x
  end /\
  isnan (fst r) = false.
Proof.
  intros r error. subst r error. unfold setup_new_step.
  cbn [fst snd].
  match goal with
  | |- context [methods_prediction_error ?s] =>
      destruct (methods_prediction_error s)
  end; cbn; repeat split; intros v; apply lt_PInf_l.
Qed.

(** C2, as stated, fails: an error of [-inf] is not finite, and the
    closure returns it unchanged, so that it is below every finite
    sample instead of being [+inf]. *)
Lemma setup_new_step_neg_inf_counterexample :
  let r := setup_new_step nat Nat.eq_dec R (fun x => x) toy_params toy_step
                          toy_train_epoch (fun _ => NInf)
                          [1] (1 / 2) toy_network in
  isfinite NInf = false /\ fst r = NInf /\ fst r <> PInf /\
  lt (fst r) (Fin 0) = true.
Proof.
  cbn. repeat split. discriminate.
Qed.

(** ** golden_search on unimodal objectives *)

Lemma sqrt5_tight : 223 / 100 < sqrt 5 < 224 / 100.
Proof.
  pose proof sqrt5_sq as H. pose proof (sqrt_pos 5) as H0.
  split; nra.
Qed.

Lemma golden_ratio_tight : 615 / 1000 < golden_ratio < 62 / 100.
Proof. unfold golden_ratio. pose proof sqrt5_tight. lra. Qed.

Lemma inner_gap (a b c d : R) :
  a <= b -> golden_shape (a, b, c, d) ->
  Rabs (c - d) = (2 * golden_ratio - 1) * (b - a).
Proof.
  intros Hab Hs. destruct (golden_inner_bounds a b c d Hab Hs) as (_ & H & _).
  destruct Hs as [Hc Hd]. cbn in Hc, Hd.
  rewrite Rabs_left1 by lra. lra.
Qed.

Section Unimodal.
Variable f : R -> sample.
Variables m maxstep : R.
Hypothesis Hmax : 0 < maxstep.
Hypothesis Hm : 0 <= m <= maxstep.
Hypothesis Hleft :
  forall x y, 0 <= x -> x < y -> y <= m -> lt (f y) (f x) = true.
Hypothesis Hright :
  forall x y, m <= x -> x < y -> y <= maxstep -> lt (f x) (f y) = true.

Let B (k : nat) : bracket :=
  Nat.iter k (golden_section_rule f) (initial_bracket maxstep).

Lemma width_positive (k : nat) : 0 < width (B k).
Proof.
  unfold B. rewrite width_iter.
  apply Rmult_lt_0_compat; [|assumption].
  apply pow_lt. pose proof golden_ratio_bounds. lra.
Qed.

(** The minimum stays inside the bracket. *)
Lemma minimum_in_bracket (k : nat) : lower (B k) <= m <= upper (B k).
Proof.
  induction k as [|k IH]; [cbn; lra|].
  pose proof (golden_shape_iter f k maxstep) as Hs.
  pose proof (bracket_bounds f k maxstep (Rlt_le _ _ Hmax)) as Hb.
  pose proof (width_positive k) as Hw.
  cbv zeta in Hb. unfold B in *. rewrite Nat.iter_succ.
  destruct (Nat.iter k (golden_section_rule f) (initial_bracket maxstep))
    as [[[a b] c] d].
  cbn in IH, Hb, Hw. unfold width in Hw. cbn in Hw.
  destruct Hb as (Ha & Hab & Hb).
  destruct (golden_inner_bounds a b c d Hab Hs) as (H1 & H2 & H3).
  assert (Hcd : c < d).
  { pose proof (inner_gap a b c d Hab Hs) as Hg.
    pose proof golden_ratio_bounds as Hphi.
    assert (0 < (2 * golden_ratio - 1) * (b - a))
      by (apply Rmult_lt_0_compat; lra).
    destruct (Req_dec c d) as [-> | Hne]; [|lra].
    rewrite Rminus_diag, Rabs_R0 in Hg. lra. }
  unfold golden_section_rule.
  destruct (lt (f c) (f d)) eqn:E; cbn.
  - split; [lra|].
    destruct (Rle_lt_dec m d) as [Hle | Hgt]; [exact Hle|].
    assert (E' : lt (f d) (f c) = true) by (apply Hleft; lra).
    apply lt_asym in E'. congruence.
  - split; [|lra].
    destruct (Rle_lt_dec c m) as [Hle | Hgt]; [exact Hle|].
    assert (E' : lt (f c) (f d) = true) by (apply Hright; lra).
    congruence.
Qed.

Lemma golden_search_unimodal_distance (maxiter : Z) (tol : R) :
  0 < tol -> (1 <= maxiter)%Z ->
  (2 * golden_ratio - 1) * golden_ratio ^ Z.to_nat maxiter * maxstep < tol ->
  exists r, outcome (golden_search f maxstep maxiter tol) = inr r /\
            Rabs (r - m) < (sqrt 5 + 2) / 2 * tol.
Proof.
  intros Htol Hiter Hbudget.
  destruct (golden_search_spec f maxstep maxiter tol Hiter)
    as (n & Hn & _ & -> & _ & Hend).
  eexists. split; [reflexivity|]. fold (B n) in Hend |- *.
  pose proof (minimum_in_bracket n) as Hin.
  pose proof (golden_shape_iter f n maxstep) as Hs.
  pose proof (width_iter f n maxstep) as Hw.
  pose proof (width_positive n) as Hwp.
  fold (B n) in Hs, Hw. unfold width in Hw, Hwp.
  assert (Hgap : (2 * golden_ratio - 1) * (upper (B n) - lower (B n)) < tol).
  { destruct Hend as [-> | Hstop].
    - rewrite Hw. lra.
    - destruct (B n) as [[[a b] c] d]. cbn in *.
      rewrite <- (inner_gap a b c d) by (assumption || lra). exact Hstop. }
  assert (Hk : (2 * golden_ratio - 1) * (sqrt 5 + 2) = 1)
    by (unfold golden_ratio; pose proof sqrt5_sq; nra).
  pose proof sqrt5_bounds as Hs5.
  assert (Hwide : upper (B n) - lower (B n) < (sqrt 5 + 2) * tol).
  { assert (H : (sqrt 5 + 2)
                 * ((2 * golden_ratio - 1) * (upper (B n) - lower (B n)))
                 < (sqrt 5 + 2) * tol)
      by (apply Rmult_lt_compat_l; lra).
    replace ((sqrt 5 + 2)
             * ((2 * golden_ratio - 1) * (upper (B n) - lower (B n))))
      with ((2 * golden_ratio - 1) * (sqrt 5 + 2)
            * (upper (B n) - lower (B n))) in H by ring.
    rewrite Hk in H. lra. }
  unfold midpoint. apply Rabs_def1; lra.
Qed.
End Unimodal.

(** C6, as amended.  For every objective that is unimodal on
    [[0, maxstep]] with its minimum at [m] (strictly decreasing up to [m],
    strictly increasing from [m] on, as every convex objective with a
    single minimum is), every [tol > 0] and a budget [maxiter] that
    suffices to reach the tolerance, [(2 phi - 1) phi ^ maxiter maxstep <
    tol], [golden_search] returns a value at distance less than
    [(sqrt 5 + 2) / 2 * tol] (about [2.12 tol]) of [m]. *)
Theorem golden_search_near_minimum
  (f : R -> sample) (m maxstep : R) (maxiter : Z) (tol : R) :
  0 < maxstep -> 0 <= m <= maxstep -> 0 < tol -> (1 <= maxiter)%Z ->
  (forall x y, 0 <= x -> x < y -> y <= m -> lt (f y) (f x) = true) ->
  (forall x y, m <= x -> x < y -> y <= maxstep -> lt (f x) (f y) = true) ->
  (2 * golden_ratio - 1) * golden_ratio ^ Z.to_nat maxiter * maxstep < tol ->
  exists r, outcome (golden_search f maxstep maxiter tol) = inr r /\
            Rabs (r - m) < (sqrt 5 + 2) / 2 * tol.
Proof.
  intros Hmax Hm Htol Hiter Hleft Hright Hbudget.
  now apply golden_search_unimodal_distance.
Qed.

Lemma golden_search_near_minimum_witness :
  exists r,
    outcome (golden_search (fun x => Fin ((x - 10) * (x - 10))) 50 4 2)
    = inr r /\
    Rabs (r - 10) < (sqrt 5 + 2) / 2 * 2.
Proof.
  apply (golden_search_near_minimum
           (fun x => Fin ((x - 10) * (x - 10))) 10 50 4 2);
    try lra; try lia.
  - intros x y H1 H2 H3. rewrite lt_Fin. apply Rltb_true. nra.
  - intros x y H1 H2 H3. rewrite lt_Fin. apply Rltb_true. nra.
  - pose proof golden_ratio_tight as Hphi.
    pose proof golden_ratio_sq as Hq.
    assert (E : golden_ratio ^ Z.to_nat 4 = 2 - 3 * golden_ratio)
      by (simpl; nra).
    rewrite E. nra.
Defined.

Lemma square_distance_lt (m c d : R) :
  m < c -> c < d -> (c - m) * (c - m) < (d - m) * (d - m).
Proof. intros. nra. Qed.

Lemma bracket_eq (a b c d a' b' c' d' : R) :
  a = a' -> b = b' -> c = c' -> d = d' ->
  ((a, b, c, d) : bracket) = (a', b', c', d').
Proof. congruence. Qed.

(** C6, as stated, fails.  [f x = (x - 1/100)^2] is convex and unimodal
    with its minimum at [1/100], inside [[0, 1]]; with [maxstep = 1],
    [tol = 1/10] and the default budget the loop reaches the tolerance at
    its second iteration and returns [(1 - phi) / 2], about [0.19], which
    is farther than [tol] from the minimum. *)
Lemma golden_search_tolerance_counterexample :
  let g := fun x : R => (x - 1 / 100) * (x - 1 / 100) in
  (forall x y, 0 <= x -> x < y -> y <= 1 / 100 -> g y < g x) /\
  (forall x y, 1 / 100 <= x -> x < y -> y <= 1 -> g x < g y) /\
  exists r,
    outcome (golden_search (fun x => Fin (g x)) 1 1024 (1 / 10)) = inr r /\
    r = (1 - golden_ratio) / 2 /\
    1 / 10 < Rabs (r - 1 / 100).
Proof.
  intros g. split; [|split].
  - intros x y H1 H2 H3. unfold g. nra.
  - intros x y H1 H2 H3. unfold g. nra.
  - set (f := fun x => Fin (g x)).
    pose proof golden_ratio_tight as Hphi.
    pose proof golden_ratio_sq as Hq.
    assert (B1 : golden_section_rule f (initial_bracket 1)
                 = (0, golden_ratio, 2 * golden_ratio - 1, 1 - golden_ratio)).
    { unfold initial_bracket, golden_section_rule, f, g. rewrite lt_Fin.
      rewrite (proj2 (Rltb_true _ _))
        by (apply square_distance_lt; lra).
      apply bracket_eq; lra. }
    assert (B2 : golden_section_rule f
                   (0, golden_ratio, 2 * golden_ratio - 1, 1 - golden_ratio)
                 = (0, 1 - golden_ratio, 2 - 3 * golden_ratio,
                    2 * golden_ratio - 1)).
    { unfold golden_section_rule, f, g. rewrite lt_Fin.
      rewrite (proj2 (Rltb_true _ _))
        by (apply square_distance_lt; lra).
      apply bracket_eq; lra. }
    destruct (golden_search_spec f 1 1024 (1 / 10))
      as (n & Hn & _ & Hrun & Hbefore & Hend); [lia|].
    assert (n = 2%nat) as ->.
    { destruct n as [|[|[|n]]]; [lia | | reflexivity |].
      - exfalso. destruct Hend as [H | H]; [lia|].
        change (Nat.iter 1 (golden_section_rule f) (initial_bracket 1))
          with (golden_section_rule f (initial_bracket 1)) in H.
        rewrite B1 in H. cbn in H.
        rewrite Rabs_left in H by lra. lra.
      - exfalso. specialize (Hbefore 2%nat ltac:(lia)).
        change (Nat.iter 2 (golden_section_rule f) (initial_bracket 1))
          with (golden_section_rule f
                  (golden_section_rule f (initial_bracket 1))) in Hbefore.
        rewrite B1, B2 in Hbefore. cbn in Hbefore.
        rewrite Rabs_left in Hbefore by lra. lra. }
    rewrite Hrun.
    change (Nat.iter 2 (golden_section_rule f) (initial_bracket 1))
      with (golden_section_rule f
              (golden_section_rule f (initial_bracket 1))).
    rewrite B1, B2. eexists. split; [reflexivity|].
    unfold midpoint. cbn [lower upper]. split; [lra|].
    rewrite Rabs_right by lra. lra.
Qed.

(** ** The result of fmin_golden_search *)

Lemma pow1_le (x : R) (n : nat) : 0 <= x <= 1 -> x ^ n <= 1.
Proof.
  intros Hx. induction n as [|n IH]; cbn; [lra|].
  assert (0 <= x ^ n) by (apply pow_le; lra). nra.
Qed.

(** On [f x = x] from [minstep = 1] the step is doubled once, to [2], and
    stays there. *)
Lemma increasing_steps (k : nat) :
  snd (after (find_right_bound (fun x => Fin x) 50) (S k) (PInf, 1)) = 2.
Proof.
  set (frb := find_right_bound (fun x => Fin x) 50).
  assert (H : exists v, v <= 2 /\
                        after frb (S k) (PInf, 1) = (Fin v, 2)).
  { induction k as [|k (v & Hv & IH)].
    - exists 1. split; [lra|].
      change (after frb 1 (PInf, 1)) with (next frb (PInf, 1)).
      unfold frb. rewrite next_find_right_bound. cbn [gt lt].
      f_equal. unfold Rmin. destruct (Rle_dec _ _); lra.
    - exists 2. split; [lra|].
      change (after frb (S (S k)) (PInf, 1))
        with (next frb (after frb (S k) (PInf, 1))).
      rewrite IH. unfold frb. rewrite next_find_right_bound.
      unfold gt. rewrite lt_Fin.
      assert (E : Rltb 2 v = false) by (now apply Rltb_false).
      now rewrite E. }
  destruct H as (v & _ & ->). reflexivity.
Qed.

(** C10. For every valid input the result of [fmin_golden_search] lies
    in [[0, maxstep]]; it need not lie in [[minstep, maxstep]]: on the
    increasing objective [f x = x] with [minstep = 1], [maxstep = 50] the
    result is below [minstep]. *)
Theorem fmin_golden_search_range :
  (forall (f : R -> sample) (minstep maxstep : R) (maxiter : Z) (tol : R),
     0 < minstep -> minstep < maxstep -> (1 <= maxiter)%Z -> 0 < tol ->
     exists r,
       outcome (fmin_golden_search f minstep maxstep maxiter tol) = inr r /\
       0 <= r <= maxstep) /\
  (exists r,
     outcome (fmin_golden_search (fun x => Fin x) 1 50 1024 (1 / 100000))
     = inr r /\
     r < 1).
Proof.
  split.
  - intros f minstep maxstep maxiter tol H1 H2 H3 H4.
    rewrite fmin_golden_search_accepts by (lia || lra).
    destruct (interval_location_bounds f minstep maxstep maxiter)
      as (bound & Hb & Hrange); [lra | lra | lia |].
    destruct (interval_location f minstep maxstep maxiter) as [l o].
    cbn [outcome snd] in Hb. subst o. rewrite bind_inr.
    destruct (golden_search_bounds f bound maxiter tol)
      as (r & Hr & Hrr); [lra | lia |].
    exists r. cbn [outcome snd]. split; [exact Hr | lra].
  - rewrite fmin_golden_search_accepts by (lia || lra).
    set (f := fun x => Fin x).
    destruct (interval_location_run f 1 50 1024) as (k & _ & Hrun); [lia|].
    rewrite Hrun, bind_inr, increasing_steps. cbn [outcome snd].
    destruct (golden_search_spec f 2 1024 (1 / 100000))
      as (n & Hn & _ & -> & _); [lia|].
    eexists. split; [reflexivity|].
    assert (Hinc : forall x y, 0 <= x -> x < y -> y <= 2 ->
                               lt (f x) (f y) = true)
      by (intros x y _ Hxy _; unfold f; rewrite lt_Fin;
          now apply Rltb_true).
    assert (Hlow : lower (Nat.iter n (golden_section_rule f)
                                   (initial_bracket 2)) = 0).
    { pose proof (minimum_in_bracket f 0 2 ltac:(lra) ltac:(lra)
                    ltac:(intros; lra) Hinc n) as H.
      pose proof (bracket_bounds f n 2 ltac:(lra)) as H'.
      cbv zeta in H'. lra. }
    pose proof (width_iter f n 2) as Hw. unfold width in Hw.
    pose proof golden_ratio_bounds as Hphi.
    assert (Hpow : golden_ratio ^ n <= golden_ratio).
    { destruct n as [|n]; [lia|]. cbn [pow].
      assert (golden_ratio ^ n <= 1)
        by (apply pow1_le; lra).
      nra. }
    unfold midpoint. lra.
Qed.

Lemma fmin_golden_search_range_witness :
  exists r,
    outcome (fmin_golden_search (fun x => Fin ((x - 3) * (x - 3) + 1))
                                (1 / 100000) 50 1024 (1 / 100000)) = inr r /\
    0 <= r <= 50.
Proof.
  apply (proj1 fmin_golden_search_range); [lra | lra | lia | lra].
Defined.

(** * Further properties of the code *)

(** ** interval_location: what it probes and returns *)

Lemma lt_irrefl (u : sample) : lt u u = false.
Proof. destruct u; cbn; try reflexivity. apply Rltb_false. lra. Qed.

Lemma lt_below_PInf (u v : sample) : lt u v = true -> lt u PInf = true.
Proof. destruct u, v; cbn; congruence. Qed.

Section IntervalLocationProbes.
Variable f : R -> sample.
Variables minstep maxstep : R.

Let frb := find_right_bound f maxstep.
Let init : sample * R := (PInf, minstep).

(** When the stop rule is never set the loop uses its whole budget. *)
Lemma interval_location_full (maxiter : Z) :
  (1 <= maxiter)%Z ->
  (forall j, stops frb (after frb j init) = false) ->
  interval_location f minstep maxstep maxiter =
  (map (fun j => snd (after frb j init)) (seq 0 (Z.to_nat maxiter)),
   inr (snd (after frb (Z.to_nat maxiter) init))).
Proof.
  intros Hm Hnever.
  destruct (interval_location_run f minstep maxstep maxiter Hm)
    as (k & Hk & ->).
  fold frb init in Hk |- *.
  rewrite iterations_full in Hk by (intros j _; apply Hnever).
  now rewrite <- Hk.
Qed.

(** The step never decreases from one iteration to the next. *)
Lemma step_monotone (k : nat) :
  0 <= minstep -> minstep <= maxstep ->
  snd (after frb k init) <= snd (after frb (S k) init).
Proof.
  intros Hpos Hle.
  pose proof (step_bounds f minstep maxstep k Hle Hpos) as Hb.
  fold frb init in Hb.
  change (after frb (S k) init) with (next frb (after frb k init)).
  destruct (after frb k init) as [prev step]. cbn [snd] in *.
  unfold frb. rewrite next_find_right_bound. cbn [snd].
  destruct (gt prev (f step)); [|lra].
  unfold Rmin. destruct (Rle_dec _ _); lra.
Qed.

Lemma step_monotone_le (i j : nat) :
  0 <= minstep -> minstep <= maxstep -> (i <= j)%nat ->
  snd (after frb i init) <= snd (after frb j init).
Proof.
  intros Hpos Hle Hij. induction Hij as [|j Hij IH]; [lra|].
  pose proof (step_monotone j Hpos Hle). lra.
Qed.

(** Every step is [minstep] doubled some number of times, capped. *)
Lemma step_doubling_form (k : nat) :
  0 < minstep -> minstep <= maxstep ->
  exists j, (j <= k)%nat /\
            snd (after frb k init) = Rmin (2 ^ j * minstep) maxstep.
Proof.
  intros Hpos Hle. induction k as [|k (j & Hj & IH)].
  - exists O. split; [lia|]. cbn. unfold Rmin.
    destruct (Rle_dec _ _); lra.
  - change (after frb (S k) init) with (next frb (after frb k init)).
    destruct (after frb k init) as [prev step]. cbn [snd] in IH.
    unfold frb. rewrite next_find_right_bound. cbn [snd].
    destruct (gt prev (f step)).
    + exists (S j). split; [lia|]. rewrite IH.
      assert (0 < 2 ^ j) by (apply pow_lt; lra).
      assert (0 < 2 ^ j * minstep) by (now apply Rmult_lt_0_compat).
      rewrite Rmin_double by lra. f_equal. cbn. lra.
    + exists j. split; [lia | exact IH].
Qed.
End IntervalLocationProbes.

(** X1. Whatever the objective, for [0 <= minstep <= maxstep] and
    [maxiter >= 1] the points at which [interval_location] evaluates [f]
    start at [minstep], never decrease and stay in
    [[minstep, maxstep]]. *)
Theorem interval_location_probes_sorted
  (f : R -> sample) (minstep maxstep : R) (maxiter : Z) :
  0 <= minstep -> minstep <= maxstep -> (1 <= maxiter)%Z ->
  let probes := calls (interval_location f minstep maxstep maxiter) in
  hd_error probes = Some minstep /\
  StronglySorted Rle probes /\
  Forall (fun x => minstep <= x <= maxstep) probes.
Proof.
  intros Hpos Hle Hm probes. subst probes.
  destruct (interval_location_run f minstep maxstep maxiter Hm)
    as (k & _ & ->).
  cbn [calls fst]. set (frb := find_right_bound f maxstep).
  set (g := fun j => snd (after frb j (PInf, minstep))).
  split; [reflexivity|]. split.
  - assert (Hmono : forall i j, (i <= j)%nat -> g i <= g j)
      by (intros i j; apply step_monotone_le; assumption).
    generalize (S k) as n. intros n. generalize O as a.
    induction n as [|n IH]; intros a; cbn [seq map]; constructor.
    + apply IH.
    + apply Forall_map, Forall_forall. intros j Hj.
      apply in_seq in Hj. apply Hmono. lia.
  - apply Forall_map, Forall_forall. intros j _.
    now apply step_bounds.
Qed.

Lemma interval_location_probes_sorted_witness :
  let probes :=
    calls (interval_location (fun x => Fin ((x - 3) * (x - 3) + 1))
                             (1 / 100000) 50 1024) in
  hd_error probes = Some (1 / 100000) /\
  StronglySorted Rle probes /\
  Forall (fun x => 1 / 100000 <= x <= 50) probes.
Proof.
  apply (interval_location_probes_sorted
           (fun x => Fin ((x - 3) * (x - 3) + 1)) (1 / 100000) 50 1024);
    [lra | lra | lia].
Defined.

(** X2. For [0 < minstep <= maxstep] and [maxiter >= 1] the value
    returned by [interval_location] is [minstep] doubled [j] times and
    capped by [maxstep], for some [j] not above the number of evaluations
    made. *)
Theorem interval_location_result_form
  (f : R -> sample) (minstep maxstep : R) (maxiter : Z) :
  0 < minstep -> minstep <= maxstep -> (1 <= maxiter)%Z ->
  exists j,
    (j <= List.length (calls (interval_location f minstep maxstep maxiter))
     <= Z.to_nat maxiter)%nat /\
    outcome (interval_location f minstep maxstep maxiter)
    = inr (Rmin (2 ^ j * minstep) maxstep).
Proof.
  intros Hpos Hle Hm.
  destruct (interval_location_run f minstep maxstep maxiter Hm)
    as (k & Hk & ->).
  destruct (step_doubling_form f minstep maxstep (S k) Hpos Hle)
    as (j & Hj & E).
  exists j. cbn [calls outcome fst snd].
  rewrite length_map, length_seq. split; [|now rewrite E].
  split; [exact Hj|]. rewrite <- Hk. apply iterations_le.
Qed.

Lemma interval_location_result_form_witness :
  exists j,
    (j <= List.length
            (calls (interval_location (fun x => Fin ((x - 3) * (x - 3) + 1))
                                      (1 / 100000) 50 1024))
     <= Z.to_nat 1024)%nat /\
    outcome (interval_location (fun x => Fin ((x - 3) * (x - 3) + 1))
                               (1 / 100000) 50 1024)
    = inr (Rmin (2 ^ j * (1 / 100000)) 50).
Proof.
  apply (interval_location_result_form
           (fun x => Fin ((x - 3) * (x - 3) + 1)) (1 / 100000) 50 1024);
    [lra | lra | lia].
Defined.

(** X3. On an objective that is strictly increasing on
    [[minstep, maxstep]] the step is doubled once, because the first
    sample is below the initial [+inf], and the increase is seen at the
    second evaluation: [interval_location] returns
    [min (2 minstep) maxstep] after at most two evaluations. *)
Theorem interval_location_increasing
  (f : R -> sample) (minstep maxstep : R) (maxiter : Z) :
  0 < minstep -> minstep < maxstep -> (1 <= maxiter)%Z ->
  (forall x y, minstep <= x -> x < y -> y <= maxstep ->
               lt (f x) (f y) = true) ->
  interval_location f minstep maxstep maxiter =
  (firstn (Z.to_nat maxiter) [minstep; Rmin (2 * minstep) maxstep],
   inr (Rmin (2 * minstep) maxstep)).
Proof.
  intros Hpos Hlt Hm Hinc.
  set (frb := find_right_bound f maxstep).
  set (s1 := Rmin (2 * minstep) maxstep).
  assert (Hs1 : minstep < s1 <= maxstep)
    by (unfold s1, Rmin; destruct (Rle_dec _ _); lra).
  assert (A1 : next frb (PInf, minstep) = (f minstep, s1)).
  { unfold frb. rewrite next_find_right_bound. unfold gt.
    now rewrite (lt_below_PInf _ (f maxstep)) by (apply Hinc; lra). }
  assert (St0 : stops frb (PInf, minstep) = false).
  { unfold frb at 1. rewrite stops_find_right_bound. fold frb.
    rewrite A1, lt_PInf_l. cbn [snd orb]. apply Rltb_false. lra. }
  assert (Hup : lt (f minstep) (f s1) = true) by (apply Hinc; lra).
  assert (A2 : next frb (f minstep, s1) = (f s1, s1)).
  { unfold frb. rewrite next_find_right_bound. unfold gt.
    now rewrite (lt_asym _ _ Hup). }
  assert (St1 : stops frb (f minstep, s1) = true).
  { unfold frb at 1. rewrite stops_find_right_bound. now rewrite Hup. }
  destruct (interval_location_run f minstep maxstep maxiter Hm)
    as (k & Hk & ->).
  fold frb in Hk |- *.
  destruct (Z.to_nat maxiter) as [|[|n]] eqn:En; [lia | |].
  - cbn [iterations] in Hk. rewrite St0 in Hk. injection Hk as <-.
    cbn [seq map firstn].
    change (after frb 1 (PInf, minstep)) with (next frb (PInf, minstep)).
    change (after frb 0 (PInf, minstep)) with (PInf, minstep).
    now rewrite A1.
  - cbn [iterations] in Hk. rewrite St0, A1, St1 in Hk. injection Hk as <-.
    cbn [seq map firstn].
    change (after frb 2 (PInf, minstep))
      with (next frb (next frb (PInf, minstep))).
    change (after frb 1 (PInf, minstep)) with (next frb (PInf, minstep)).
    change (after frb 0 (PInf, minstep)) with (PInf, minstep).
    now rewrite A1, A2, firstn_nil.
Qed.

Lemma interval_location_increasing_witness :
  interval_location (fun x => Fin x) 1 50 1024 =
  (firstn (Z.to_nat 1024) [1; Rmin (2 * 1) 50], inr (Rmin (2 * 1) 50)).
Proof.
  apply (interval_location_increasing (fun x => Fin x) 1 50 1024);
    [lra | lra | lia |].
  intros x y _ Hxy _. rewrite lt_Fin. now apply Rltb_true.
Defined.

(** X4. When the first sample, at [minstep], is [nan] or [+inf], no
    comparison ever succeeds: [interval_location] evaluates [f] at
    [minstep] at every one of its [maxiter] iterations and returns
    [minstep]. *)
Theorem interval_location_diverged
  (f : R -> sample) (minstep maxstep : R) (maxiter : Z) :
  minstep <= maxstep -> (1 <= maxiter)%Z ->
  f minstep = NaN \/ f minstep = PInf ->
  interval_location f minstep maxstep maxiter =
  (repeat minstep (Z.to_nat maxiter), inr minstep).
Proof.
  intros Hle Hm Hdiv.
  set (frb := find_right_bound f maxstep).
  assert (Hgt : forall prev, prev = PInf \/ prev = f minstep ->
                             gt prev (f minstep) = false /\
                             lt prev (f minstep) = false).
  { intros prev Hprev. unfold gt.
    destruct Hdiv as [E | E], Hprev as [-> | ->]; rewrite ?E;
      split; reflexivity. }
  assert (Hst : forall k, exists prev,
             (prev = PInf \/ prev = f minstep) /\
             after frb k (PInf, minstep) = (prev, minstep)).
  { induction k as [|k (prev & Hprev & IH)].
    - exists PInf. split; [now left | reflexivity].
    - exists (f minstep). split; [now right|].
      change (after frb (S k) (PInf, minstep))
        with (next frb (after frb k (PInf, minstep))).
      rewrite IH. unfold frb. rewrite next_find_right_bound.
      now rewrite (proj1 (Hgt prev Hprev)). }
  rewrite interval_location_full; [|exact Hm|].
  - fold frb. destruct (Hst (Z.to_nat maxiter)) as (prev & _ & ->).
    cbn [snd]. f_equal.
    rewrite (map_ext_in _ (fun _ => minstep)).
    + now rewrite map_const, length_seq.
    + intros j _. destruct (Hst j) as (p & _ & ->). reflexivity.
  - intros j. fold frb. destruct (Hst j) as (prev & Hprev & ->).
    unfold frb at 1. rewrite stops_find_right_bound.
    rewrite next_find_right_bound.
    destruct (Hgt prev Hprev) as [-> ->]. cbn [snd orb].
    now apply Rltb_false.
Qed.

Lemma interval_location_diverged_witness :
  interval_location (fun _ => NaN) (1 / 100000) 50 1024 =
  (repeat (1 / 100000) (Z.to_nat 1024), inr (1 / 100000)).
Proof.
  apply (interval_location_diverged (fun _ => NaN) (1 / 100000) 50 1024);
    [lra | lia | now left].
Defined.

(** X5. On a constant objective [interval_location] doubles the step
    once and then stalls, since equal samples are neither a decrease nor
    an increase: it uses its whole budget of [maxiter] evaluations, the
    first at [minstep] and the others at [min (2 minstep) maxstep], which
    it returns. *)
Theorem interval_location_constant
  (v minstep maxstep : R) (maxiter : Z) :
  (1 <= maxiter)%Z ->
  interval_location (fun _ => Fin v) minstep maxstep maxiter =
  (minstep :: repeat (Rmin (2 * minstep) maxstep) (Z.to_nat maxiter - 1),
   inr (Rmin (2 * minstep) maxstep)).
Proof.
  intros Hm.
  set (f := fun _ : R => Fin v).
  set (frb := find_right_bound f maxstep).
  assert (Hvv : Rltb v v = false) by (apply Rltb_false; lra).
  assert (Hcap : Rltb maxstep (Rmin (2 * minstep) maxstep) = false)
    by (apply Rltb_false, Rmin_r).
  rewrite interval_location_full; [|exact Hm|].
  - fold f frb. destruct (Z.to_nat maxiter) as [|n] eqn:En; [lia|].
    unfold frb, f. rewrite flat_after. cbn [snd]. f_equal.
    cbn [seq map]. f_equal. rewrite Nat.sub_1_r. cbn [Nat.pred].
    rewrite <- seq_shift, map_map.
    rewrite (map_ext _ (fun _ => Rmin (2 * minstep) maxstep))
      by (intros j; now rewrite flat_after).
    now rewrite map_const, length_seq.
  - intros j. fold f frb. destruct j as [|j].
    + change (after frb 0 (PInf, minstep)) with (PInf, minstep).
      unfold frb. rewrite stops_find_right_bound, next_find_right_bound.
      cbn [gt lt f snd orb]. exact Hcap.
    + unfold frb, f. rewrite flat_after.
      rewrite stops_find_right_bound, next_find_right_bound.
      unfold gt. cbn [lt]. rewrite Hvv. cbn [snd orb]. exact Hcap.
Qed.

Lemma interval_location_constant_witness :
  interval_location (fun _ => Fin 0) 1 50 1024 =
  (1 :: repeat (Rmin (2 * 1) 50) (Z.to_nat 1024 - 1),
   inr (Rmin (2 * 1) 50)).
Proof.
  apply (interval_location_constant 0 1 50 1024). lia.
Defined.

(** ** golden_search: the brackets of the loop *)

Lemma golden_gap_iter (f : R -> sample) (k : nat) (maxstep : R) :
  0 <= maxstep ->
  let br := Nat.iter k (golden_section_rule f) (initial_bracket maxstep) in
  Rabs (inner_c br - inner_d br)
  = (2 * golden_ratio - 1) * (golden_ratio ^ k * maxstep).
Proof.
  intros Hpos br.
  pose proof (golden_shape_iter f k maxstep) as Hs.
  pose proof (bracket_bounds f k maxstep Hpos) as Hb.
  pose proof (width_iter f k maxstep) as Hw.
  cbv zeta in Hb. fold br in Hs, Hb, Hw.
  destruct br as [[[a b] c] d]. cbn in Hb. unfold width in Hw. cbn in Hw.
  cbn [inner_c inner_d]. rewrite <- Hw. apply inner_gap; tauto.
Qed.

(** X6. For [maxstep >= 0] every bracket [(a, b, c, d)] of the loop of
    [golden_search] is ordered, [0 <= a <= c <= d <= b <= maxstep], and
    the next bracket lies inside it. *)
Theorem golden_brackets_nested
  (f : R -> sample) (tol maxstep : R) (k : nat) :
  0 <= maxstep ->
  let br := after (interval_reduction f tol) k (initial_bracket maxstep) in
  let br' := next (interval_reduction f tol) br in
  (0 <= lower br /\ lower br <= inner_c br /\ inner_c br <= inner_d br /\
   inner_d br <= upper br /\ upper br <= maxstep) /\
  lower br <= lower br' /\ upper br' <= upper br.
Proof.
  intros Hpos br br'. subst br'. rewrite next_interval_reduction.
  assert (Hs : golden_shape br)
    by (subst br; rewrite after_interval_reduction;
        apply golden_shape_iter).
  assert (Hb : 0 <= lower br /\ lower br <= upper br /\ upper br <= maxstep)
    by (subst br; rewrite after_interval_reduction;
        now apply bracket_bounds).
  clearbody br. destruct br as [[[a b] c] d]. cbn in Hb.
  destruct Hb as (Ha & Hab & Hb).
  destruct (golden_inner_bounds a b c d Hab Hs) as (H1 & H2 & H3).
  unfold golden_section_rule.
  destruct (lt (f c) (f d)); cbn; lra.
Qed.

Lemma golden_brackets_nested_witness :
  let f := fun x => Fin ((x - 10) * (x - 10)) in
  let br := after (interval_reduction f (1 / 100000)) 7
                  (initial_bracket 50) in
  let br' := next (interval_reduction f (1 / 100000)) br in
  (0 <= lower br /\ lower br <= inner_c br /\ inner_c br <= inner_d br /\
   inner_d br <= upper br /\ upper br <= 50) /\
  lower br <= lower br' /\ upper br' <= upper br.
Proof.
  apply (golden_brackets_nested
           (fun x => Fin ((x - 10) * (x - 10))) (1 / 100000) 50 7).
  lra.
Defined.

(** X7. For [maxstep > 0] and [maxiter >= 1] the step returned by
    [golden_search] is strictly between [0] and [maxstep]: neither end
    of the initial bracket is ever returned. *)
Theorem golden_search_strictly_inside
  (f : R -> sample) (maxstep : R) (maxiter : Z) (tol : R) :
  0 < maxstep -> (1 <= maxiter)%Z ->
  exists r, outcome (golden_search f maxstep maxiter tol) = inr r /\
            0 < r < maxstep.
Proof.
  intros Hpos Hm.
  destruct (golden_search_spec f maxstep maxiter tol Hm)
    as (n & _ & _ & -> & _).
  eexists. split; [reflexivity|].
  pose proof (bracket_bounds f n maxstep (Rlt_le _ _ Hpos)) as Hb.
  pose proof (width_positive f maxstep Hpos n) as Hw.
  cbv zeta in Hb. unfold width in Hw. unfold midpoint. lra.
Qed.

Lemma golden_search_strictly_inside_witness :
  exists r,
    outcome (golden_search (fun x => Fin ((x - 10) * (x - 10)))
                           50 1024 (1 / 100000)) = inr r /\
    0 < r < 50.
Proof.
  apply (golden_search_strictly_inside
           (fun x => Fin ((x - 10) * (x - 10))) 50 1024 (1 / 100000));
    [lra | lia].
Defined.

(** X8. The number of evaluations made by [golden_search] does not
    depend on the objective.  For [maxstep >= 0] it is [2 n], where [n]
    is the first iteration, from [1] on, at which
    [(2 phi - 1) phi ^ n maxstep < tol], and [maxiter] when there is none
    before: the distance of the inner points is a fixed share of the
    bracket width. *)
Theorem golden_search_evaluation_count
  (maxstep : R) (maxiter : Z) (tol : R) :
  0 <= maxstep -> (1 <= maxiter)%Z ->
  exists n,
    (1 <= n <= Z.to_nat maxiter)%nat /\
    (forall k, (1 <= k < n)%nat ->
       tol <= (2 * golden_ratio - 1) * (golden_ratio ^ k * maxstep)) /\
    (n = Z.to_nat maxiter \/
     (2 * golden_ratio - 1) * (golden_ratio ^ n * maxstep) < tol) /\
    forall f : R -> sample,
      List.length (calls (golden_search f maxstep maxiter tol))
      = (2 * n)%nat.
Proof.
  intros Hpos Hm.
  assert (Hall : forall f : R -> sample, exists n,
    (1 <= n <= Z.to_nat maxiter)%nat /\
    (forall k, (1 <= k < n)%nat ->
       tol <= (2 * golden_ratio - 1) * (golden_ratio ^ k * maxstep)) /\
    (n = Z.to_nat maxiter \/
     (2 * golden_ratio - 1) * (golden_ratio ^ n * maxstep) < tol) /\
    List.length (calls (golden_search f maxstep maxiter tol))
    = (2 * n)%nat).
  { intros f.
    destruct (golden_search_spec f maxstep maxiter tol Hm)
      as (n & Hn & _ & Hrun & Hbefore & Hend).
    exists n. split; [exact Hn|]. split; [|split].
    - intros k Hk. specialize (Hbefore k Hk).
      now rewrite golden_gap_iter in Hbefore.
    - destruct Hend as [H | H]; [now left | right].
      now rewrite golden_gap_iter in H.
    - rewrite Hrun. cbn [calls fst].
      now rewrite length_concat_pairs, length_seq. }
  destruct (Hall (fun _ => NaN)) as (n & Hn & Hbefore & Hend & _).
  exists n. split; [exact Hn|]. split; [exact Hbefore|].
  split; [exact Hend|]. intros f.
  destruct (Hall f) as (n' & Hn' & Hbefore' & Hend' & ->).
  f_equal.
  destruct (Nat.lt_trichotomy n' n) as [Hlt | [Heq | Hgt]];
    [exfalso | exact Heq | exfalso].
  - specialize (Hbefore n' ltac:(lia)).
    destruct Hend' as [H | H]; [lia | lra].
  - specialize (Hbefore' n ltac:(lia)).
    destruct Hend as [H | H]; [lia | lra].
Qed.

Lemma golden_search_evaluation_count_witness :
  exists n,
    (1 <= n <= Z.to_nat 1024)%nat /\
    (forall k, (1 <= k < n)%nat ->
       1 / 100000 <= (2 * golden_ratio - 1) * (golden_ratio ^ k * 50)) /\
    (n = Z.to_nat 1024 \/
     (2 * golden_ratio - 1) * (golden_ratio ^ n * 50) < 1 / 100000) /\
    forall f : R -> sample,
      List.length (calls (golden_search f 50 1024 (1 / 100000)))
      = (2 * n)%nat.
Proof.
  apply (golden_search_evaluation_count 50 1024 (1 / 100000)); [lra | lia].
Defined.

(** ** golden_search: where the result lies *)

(** X9. On an objective that is unimodal on [[0, maxstep]] with its
    minimum at [m], whatever [tol] and the budget, the minimum is in the
    last bracket: the result of [golden_search] is at most half the last
    width, [phi ^ n maxstep / 2], away from [m], where [n] is the number
    of iterations made ([2 n] evaluations). *)
Theorem golden_search_brackets_minimum
  (f : R -> sample) (m maxstep : R) (maxiter : Z) (tol : R) :
  0 < maxstep -> 0 <= m <= maxstep -> (1 <= maxiter)%Z ->
  (forall x y, 0 <= x -> x < y -> y <= m -> lt (f y) (f x) = true) ->
  (forall x y, m <= x -> x < y -> y <= maxstep -> lt (f x) (f y) = true) ->
  exists n r,
    (1 <= n <= Z.to_nat maxiter)%nat /\
    List.length (calls (golden_search f maxstep maxiter tol))
    = (2 * n)%nat /\
    outcome (golden_search f maxstep maxiter tol) = inr r /\
    Rabs (r - m) <= golden_ratio ^ n * maxstep / 2.
Proof.
  intros Hmax Hm Hiter Hleft Hright.
  destruct (golden_search_spec f maxstep maxiter tol Hiter)
    as (n & Hn & _ & -> & _).
  exists n. eexists. split; [exact Hn|]. cbn [calls outcome fst snd].
  split; [now rewrite length_concat_pairs, length_seq|].
  split; [reflexivity|].
  pose proof (minimum_in_bracket f m maxstep Hmax Hm Hleft Hright n) as Hin.
  pose proof (width_iter f n maxstep) as Hw. unfold width in Hw.
  unfold midpoint. apply Rabs_le. lra.
Qed.

Lemma golden_search_brackets_minimum_witness :
  exists n r,
    (1 <= n <= Z.to_nat 1024)%nat /\
    List.length
      (calls (golden_search (fun x => Fin ((x - 10) * (x - 10)))
                            50 1024 (1 / 100000)))
    = (2 * n)%nat /\
    outcome (golden_search (fun x => Fin ((x - 10) * (x - 10)))
                           50 1024 (1 / 100000)) = inr r /\
    Rabs (r - 10) <= golden_ratio ^ n * 50 / 2.
Proof.
  apply (golden_search_brackets_minimum
           (fun x => Fin ((x - 10) * (x - 10))) 10 50 1024 (1 / 100000));
    try lra; try lia.
  - intros x y H1 H2 H3. rewrite lt_Fin. apply Rltb_true. nra.
  - intros x y H1 H2 H3. rewrite lt_Fin. apply Rltb_true. nra.
Defined.

(** X10. On an objective that is strictly increasing on [[0, maxstep]]
    the lower end of the bracket never leaves [0]: [golden_search]
    returns [phi ^ n maxstep / 2] after [n] iterations. *)
Theorem golden_search_on_increasing
  (f : R -> sample) (maxstep : R) (maxiter : Z) (tol : R) :
  0 < maxstep -> (1 <= maxiter)%Z ->
  (forall x y, 0 <= x -> x < y -> y <= maxstep -> lt (f x) (f y) = true) ->
  exists n,
    (1 <= n <= Z.to_nat maxiter)%nat /\
    List.length (calls (golden_search f maxstep maxiter tol))
    = (2 * n)%nat /\
    outcome (golden_search f maxstep maxiter tol)
    = inr (golden_ratio ^ n * maxstep / 2).
Proof.
  intros Hmax Hiter Hinc.
  destruct (golden_search_spec f maxstep maxiter tol Hiter)
    as (n & Hn & _ & -> & _).
  exists n. split; [exact Hn|]. cbn [calls outcome fst snd].
  split; [now rewrite length_concat_pairs, length_seq|].
  pose proof (minimum_in_bracket f 0 maxstep Hmax ltac:(lra)
                ltac:(intros; lra) Hinc n) as Hin.
  pose proof (bracket_bounds f n maxstep (Rlt_le _ _ Hmax)) as Hb.
  pose proof (width_iter f n maxstep) as Hw.
  cbv zeta in Hb. unfold width in Hw. unfold midpoint. f_equal. lra.
Qed.

Lemma golden_search_on_increasing_witness :
  exists n,
    (1 <= n <= Z.to_nat 1024)%nat /\
    List.length (calls (golden_search (fun x => Fin x) 50 1024 (1 / 100000)))
    = (2 * n)%nat /\
    outcome (golden_search (fun x => Fin x) 50 1024 (1 / 100000))
    = inr (golden_ratio ^ n * 50 / 2).
Proof.
  apply (golden_search_on_increasing (fun x => Fin x) 50 1024 (1 / 100000));
    [lra | lia |].
  intros x y _ Hxy _. rewrite lt_Fin. now apply Rltb_true.
Defined.

(** X11. On an objective that is strictly decreasing on [[0, maxstep]]
    the upper end of the bracket never leaves [maxstep]: [golden_search]
    returns [maxstep - phi ^ n maxstep / 2] after [n] iterations. *)
Theorem golden_search_on_decreasing
  (f : R -> sample) (maxstep : R) (maxiter : Z) (tol : R) :
  0 < maxstep -> (1 <= maxiter)%Z ->
  (forall x y, 0 <= x -> x < y -> y <= maxstep -> lt (f y) (f x) = true) ->
  exists n,
    (1 <= n <= Z.to_nat maxiter)%nat /\
    List.length (calls (golden_search f maxstep maxiter tol))
    = (2 * n)%nat /\
    outcome (golden_search f maxstep maxiter tol)
    = inr (maxstep - golden_ratio ^ n * maxstep / 2).
Proof.
  intros Hmax Hiter Hdec.
  destruct (golden_search_spec f maxstep maxiter tol Hiter)
    as (n & Hn & _ & -> & _).
  exists n. split; [exact Hn|]. cbn [calls outcome fst snd].
  split; [now rewrite length_concat_pairs, length_seq|].
  pose proof (minimum_in_bracket f maxstep maxstep Hmax ltac:(lra)
                Hdec ltac:(intros; lra) n) as Hin.
  pose proof (bracket_bounds f n maxstep (Rlt_le _ _ Hmax)) as Hb.
  pose proof (width_iter f n maxstep) as Hw.
  cbv zeta in Hb. unfold width in Hw. unfold midpoint. f_equal. lra.
Qed.

Lemma golden_search_on_decreasing_witness :
  exists n,
    (1 <= n <= Z.to_nat 1024)%nat /\
    List.length
      (calls (golden_search (fun x => Fin (- x)) 50 1024 (1 / 100000)))
    = (2 * n)%nat /\
    outcome (golden_search (fun x => Fin (- x)) 50 1024 (1 / 100000))
    = inr (50 - golden_ratio ^ n * 50 / 2).
Proof.
  apply (golden_search_on_decreasing (fun x => Fin (- x)) 50 1024 (1 / 100000));
    [lra | lia |].
  intros x y _ Hxy _. rewrite lt_Fin. apply Rltb_true. lra.
Defined.

(** ** fmin_golden_search: the two searches together *)

Lemma golden_inner_strict (a b c d : R) :
  a < b -> golden_shape (a, b, c, d) -> a < c /\ c < d /\ d < b.
Proof.
  intros Hab [Hc Hd]. cbn in Hc, Hd.
  pose proof golden_ratio_bounds as Hphi.
  assert (1 / 2 * (b - a) < golden_ratio * (b - a))
    by (apply Rmult_lt_compat_r; lra).
  assert (golden_ratio * (b - a) < 1 * (b - a))
    by (apply Rmult_lt_compat_r; lra).
  lra.
Qed.

(** The points at which [golden_search] evaluates the objective are
    inside the initial bracket. *)
Lemma golden_search_probes (f : R -> sample) (maxstep : R) (maxiter : Z)
  (tol : R) :
  0 < maxstep -> (1 <= maxiter)%Z ->
  Forall (fun x => 0 < x < maxstep)
         (calls (golden_search f maxstep maxiter tol)).
Proof.
  intros Hpos Hm.
  destruct (golden_search_spec f maxstep maxiter tol Hm)
    as (n & _ & _ & -> & _).
  cbn [calls fst]. apply Forall_concat, Forall_map, Forall_forall.
  intros k _.
  pose proof (golden_shape_iter f k maxstep) as Hs.
  pose proof (bracket_bounds f k maxstep (Rlt_le _ _ Hpos)) as Hb.
  pose proof (width_positive f maxstep Hpos k) as Hw.
  cbv zeta in Hb. unfold width in Hw.
  destruct (Nat.iter k (golden_section_rule f) (initial_bracket maxstep))
    as [[[a b] c] d].
  cbn in Hb, Hw. cbn [inner_c inner_d].
  destruct (golden_inner_strict a b c d ltac:(lra) Hs) as (H1 & H2 & H3).
  repeat constructor; lra.
Qed.

(** With valid parameters [fmin_golden_search] is [interval_location]
    followed by [golden_search] on the bound it found. *)
Lemma fmin_golden_search_split
  (f : R -> sample) (minstep maxstep : R) (maxiter : Z) (tol : R) :
  (1 <= maxiter)%Z -> 0 < minstep -> minstep < maxstep -> 0 < tol ->
  exists bound,
    outcome (interval_location f minstep maxstep maxiter) = inr bound /\
    minstep <= bound <= maxstep /\
    fmin_golden_search f minstep maxstep maxiter tol =
    (calls (interval_location f minstep maxstep maxiter)
     ++ calls (golden_search f bound maxiter tol),
     outcome (golden_search f bound maxiter tol)).
Proof.
  intros H1 H2 H3 H4.
  destruct (interval_location_bounds f minstep maxstep maxiter)
    as (bound & Hb & Hrange); [lra | lra | lia |].
  exists bound. split; [exact Hb|]. split; [exact Hrange|].
  rewrite fmin_golden_search_accepts by (lia || lra).
  destruct (interval_location f minstep maxstep maxiter) as [l o].
  cbn [outcome snd] in Hb. subst o. now rewrite bind_inr.
Qed.

(** X12. With valid parameters every point at which
    [fmin_golden_search] evaluates the objective is positive and not above
    [maxstep]: no trial is made at step [0] or beyond the largest step
    allowed. *)
Theorem fmin_golden_search_probes_in_range
  (f : R -> sample) (minstep maxstep : R) (maxiter : Z) (tol : R) :
  (1 <= maxiter)%Z -> 0 < minstep -> minstep < maxstep -> 0 < tol ->
  Forall (fun x => 0 < x <= maxstep)
         (calls (fmin_golden_search f minstep maxstep maxiter tol)).
Proof.
  intros H1 H2 H3 H4.
  destruct (fmin_golden_search_split f minstep maxstep maxiter tol)
    as (bound & _ & Hb & ->); try assumption.
  cbn [calls fst]. apply Forall_app. split.
  - destruct (interval_location_run f minstep maxstep maxiter H1)
      as (k & _ & ->).
    cbn [calls fst]. apply Forall_map, Forall_forall. intros j _.
    pose proof (step_bounds f minstep maxstep j). lra.
  - eapply Forall_impl; [|apply golden_search_probes; lra || lia].
    cbv beta. intros x Hx. lra.
Qed.

Lemma fmin_golden_search_probes_in_range_witness :
  Forall (fun x => 0 < x <= 50)
         (calls (fmin_golden_search (fun x => Fin ((x - 3) * (x - 3) + 1))
                                    (1 / 100000) 50 1024 (1 / 100000))).
Proof.
  apply (fmin_golden_search_probes_in_range
           (fun x => Fin ((x - 3) * (x - 3) + 1))
           (1 / 100000) 50 1024 (1 / 100000));
    [lia | lra | lra | lra].
Defined.

(** X13. With valid parameters [fmin_golden_search] makes at least
    three and at most [3 maxiter] evaluations of the objective: up to
    [maxiter] to locate the bound, and two at each of the up to [maxiter]
    reductions. *)
Theorem fmin_golden_search_evaluation_budget
  (f : R -> sample) (minstep maxstep : R) (maxiter : Z) (tol : R) :
  (1 <= maxiter)%Z -> 0 < minstep -> minstep < maxstep -> 0 < tol ->
  (3 <= List.length
          (calls (fmin_golden_search f minstep maxstep maxiter tol))
   <= 3 * Z.to_nat maxiter)%nat.
Proof.
  intros H1 H2 H3 H4.
  destruct (fmin_golden_search_split f minstep maxstep maxiter tol)
    as (bound & _ & _ & ->); try assumption.
  cbn [calls fst]. rewrite length_app.
  destruct (interval_location_run f minstep maxstep maxiter H1)
    as (k & Hk & ->).
  destruct (golden_search_spec f bound maxiter tol H1)
    as (n & Hn & _ & -> & _).
  cbn [calls fst].
  rewrite length_map, length_concat_pairs, !length_seq.
  pose proof (iterations_le (find_right_bound f maxstep)
                (Z.to_nat maxiter) (PInf, minstep)) as Hle.
  rewrite Hk in Hle. lia.
Qed.

Lemma fmin_golden_search_evaluation_budget_witness :
  (3 <= List.length
          (calls (fmin_golden_search (fun x => Fin ((x - 3) * (x - 3) + 1))
                                     (1 / 100000) 50 1024 (1 / 100000)))
   <= 3 * Z.to_nat 1024)%nat.
Proof.
  apply (fmin_golden_search_evaluation_budget
           (fun x => Fin ((x - 3) * (x - 3) + 1))
           (1 / 100000) 50 1024 (1 / 100000));
    [lia | lra | lra | lra].
Defined.

(** ** fmin_golden_search on unimodal objectives *)

Section LocateUnimodal.
Variable f : R -> sample.
Variables m minstep maxstep : R.
Hypothesis Hpos : 0 < minstep.
Hypothesis Hlt : minstep < maxstep.
Hypothesis Hm : 0 <= m <= maxstep.
Hypothesis Hleft :
  forall x y, 0 <= x -> x < y -> y <= m -> lt (f y) (f x) = true.
Hypothesis Hright :
  forall x y, m <= x -> x < y -> y <= maxstep -> lt (f x) (f y) = true.

Let frb := find_right_bound f maxstep.






End LocateUnimodal.




(** ** LinearSearch.train_epoch: what a trial touches *)

(** X15. Whatever the collaborators do, a call of the closure
    [setup_new_step] runs exactly one training update, and runs it on a
    store in which the shared step holds the new step, every other listed
    parameter holds its captured value, and every other variable is as it
    was before the call. *)
Theorem setup_new_step_store
  (var : Type) (var_eq_dec : forall x y : var, {x = y} + {x <> y})
  (value : Type) (float_value : R -> value)
  (params : list var) (step : var)
  (methods_train_epoch : store var value -> store var value)
  (methods_prediction_error : store var value -> sample)
  (s0 : store var value) (new_step : R) (g : network var value) :
  let r := setup_new_step var var_eq_dec value float_value params step
                          methods_train_epoch methods_prediction_error
                          (map s0 params) new_step g in
  exists s,
    trained_on _ _ (snd r) = trained_on _ _ g ++ [s] /\
    shared _ _ (snd r) = methods_train_epoch s /\
    s step = float_value new_step /\
    (forall p, In p params -> p <> step -> s p = s0 p) /\
    (forall v, ~ In v params -> v <> step -> s v = shared _ _ g v).
Proof.
  intros r. subst r. unfold setup_new_step, train_epoch_call.
  cbn [snd shared trained_on].
  destruct (reset_params var var_eq_dec value s0 params g) as [Ht Hs].
  cbv zeta in Ht, Hs. eexists. split; [|split; [reflexivity|]].
  - cbn [set_value trained_on]. now rewrite Ht.
  - cbn [set_value shared]. split; [|split].
    + now destruct (var_eq_dec step step).
    + intros p Hin Hne. destruct (var_eq_dec p step); [contradiction|].
      rewrite Hs. now destruct (in_dec var_eq_dec p params).
    + intros v Hin Hne. destruct (var_eq_dec v step); [contradiction|].
      rewrite Hs. now destruct (in_dec var_eq_dec v params).
Qed.

(** X16. When the training function assigns the listed parameters only,
    [train_epoch] leaves every variable that is neither a listed parameter
    nor the shared step as it found it, runs one training update per
    objective value the minimizer asked for and one more to commit, and,
    if the step is not itself a listed parameter, leaves the shared step at
    the step the minimizer answered. *)
Theorem train_epoch_frame
  (var : Type) (var_eq_dec : forall x y : var, {x = y} + {x <> y})
  (value : Type) (float_value : R -> value)
  (params : list var) (step : var)
  (methods_train_epoch : store var value -> store var value)
  (methods_prediction_error : store var value -> sample)
  (minimize_scalar : R -> search_method -> Z -> minimizer)
  (tol : R) (method : search_method) (maxiter : Z)
  (g : network var value) :
  (forall s x, ~ In x params -> methods_train_epoch s x = s x) ->
  let objective := trial var var_eq_dec value float_value step
                         methods_train_epoch methods_prediction_error
                         (shared _ _ g) in
  let m := minimize_scalar tol method maxiter in
  let g' := snd (train_epoch var var_eq_dec value float_value params step
                   methods_train_epoch methods_prediction_error
                   minimize_scalar tol method maxiter g) in
  (forall x, ~ In x params -> x <> step ->
             shared _ _ g' x = shared _ _ g x) /\
  List.length (trained_on _ _ g')
  = (List.length (trained_on _ _ g)
     + List.length (queries m objective) + 1)%nat /\
  (~ In step params ->
   shared _ _ g' step = float_value (answer m objective)).
Proof.
  intros Hframe objective m g'. subst g'. unfold train_epoch.
  change (map (fun param => get_value var value param g) params)
    with (map (shared _ _ g) params).
  destruct (minimize_eq var var_eq_dec value float_value params step
              methods_train_epoch methods_prediction_error Hframe
              (shared _ _ g) m g) as (g1 & Hrun & Hout & Hlog);
    [now intros x _ _|].
  fold m. rewrite Hrun, setup_new_step_eq by assumption.
  cbn [snd shared trained_on]. split; [|split].
  - intros x Hin Hne. rewrite Hframe by assumption.
    unfold with_step. now destruct (var_eq_dec x step).
  - rewrite Hlog, !length_app, length_map. reflexivity.
  - intros Hin. rewrite Hframe by assumption.
    unfold with_step. now destruct (var_eq_dec step step).
Qed.

Lemma train_epoch_frame_witness :
  let objective := trial nat Nat.eq_dec R (fun x => x) toy_step
                         toy_train_epoch toy_prediction_error
                         (shared _ _ toy_network) in
  let m := toy_minimize_scalar (1 / 10) golden 1024 in
  let g' := snd (train_epoch nat Nat.eq_dec R (fun x => x) toy_params
                   toy_step toy_train_epoch toy_prediction_error
                   toy_minimize_scalar (1 / 10) golden 1024 toy_network) in
  (forall x, ~ In x toy_params -> x <> toy_step ->
             shared _ _ g' x = shared _ _ toy_network x) /\
  List.length (trained_on _ _ g')
  = (List.length (trained_on _ _ toy_network)
     + List.length (queries m objective) + 1)%nat /\
  (~ In toy_step toy_params ->
   shared _ _ g' toy_step = answer m objective).
Proof.
  apply (train_epoch_frame
           nat Nat.eq_dec R (fun x => x) toy_params toy_step
           toy_train_epoch toy_prediction_error toy_minimize_scalar
           (1 / 10) golden 1024 toy_network).
  intros s x Hx. unfold toy_train_epoch.
  destruct (Nat.eq_dec x 0) as [-> | Hne]; [|reflexivity].
  exfalso. apply Hx. now left.
Defined.

Lemma setup_new_step_store_witness :
  let r := setup_new_step nat Nat.eq_dec R (fun x => x) toy_params toy_step
                          toy_train_epoch toy_prediction_error
                          (map (shared _ _ toy_network) toy_params)
                          (1 / 2) toy_network in
  exists s,
    trained_on _ _ (snd r) = trained_on _ _ toy_network ++ [s] /\
    shared _ _ (snd r) = toy_train_epoch s /\
    s toy_step = 1 / 2 /\
    (forall p, In p toy_params -> p <> toy_step ->
               s p = shared _ _ toy_network p) /\
    (forall v, ~ In v toy_params -> v <> toy_step ->
               s v = shared _ _ toy_network v).
Proof.
  exact (setup_new_step_store nat Nat.eq_dec R (fun x => x) toy_params
           toy_step toy_train_epoch toy_prediction_error
           (shared _ _ toy_network) (1 / 2) toy_network).
Defined.

(** ** fmin_golden_search on monotone objectives *)

(** On an increasing objective the bound located is at most twice
    [minstep]. *)
Lemma increasing_bound
  (f : R -> sample) (minstep maxstep : R) (maxiter : Z) :
  0 < minstep -> minstep < maxstep -> (1 <= maxiter)%Z ->
  (forall x y, minstep <= x -> x < y -> y <= maxstep ->
               lt (f x) (f y) = true) ->
  outcome (interval_location f minstep maxstep maxiter)
  = inr (Rmin (2 * minstep) maxstep).
Proof.
  intros Hpos Hlt Hm Hinc.
  set (frb := find_right_bound f maxstep).
  set (s1 := Rmin (2 * minstep) maxstep).
  assert (Hs1 : minstep < s1 <= maxstep)
    by (unfold s1, Rmin; destruct (Rle_dec _ _); lra).
  assert (Hst : forall k, exists p,
             minstep <= p <= s1 /\
             after frb (S k) (PInf, minstep) = (f p, s1)).
  { induction k as [|k (p & Hp & IH)].
    - exists minstep. split; [lra|].
      change (after frb 1 (PInf, minstep)) with (next frb (PInf, minstep)).
      unfold frb. rewrite next_find_right_bound. unfold gt.
      now rewrite (lt_below_PInf _ (f maxstep)) by (apply Hinc; lra).
    - exists s1. split; [lra|].
      change (after frb (S (S k)) (PInf, minstep))
        with (next frb (after frb (S k) (PInf, minstep))).
      rewrite IH. unfold frb. rewrite next_find_right_bound. unfold gt.
      assert (E : lt (f s1) (f p) = false).
      { destruct (Req_dec p s1) as [-> | Hne]; [apply lt_irrefl|].
        apply lt_asym, Hinc; lra. }
      now rewrite E. }
  destruct (interval_location_run f minstep maxstep maxiter Hm)
    as (k & _ & ->).
  fold frb. destruct (Hst k) as (p & _ & ->). reflexivity.
Qed.

(** X17. On an objective that is strictly increasing on [[0, maxstep]],
    with valid parameters, [fmin_golden_search] returns a positive step
    below [minstep]: the bound located is at most [2 minstep], and the
    refinement, whose bracket starts at [0], closes in on [0]. *)
Theorem fmin_golden_search_increasing
  (f : R -> sample) (minstep maxstep : R) (maxiter : Z) (tol : R) :
  (1 <= maxiter)%Z -> 0 < minstep -> minstep < maxstep -> 0 < tol ->
  (forall x y, 0 <= x -> x < y -> y <= maxstep -> lt (f x) (f y) = true) ->
  exists r,
    outcome (fmin_golden_search f minstep maxstep maxiter tol) = inr r /\
    0 < r < minstep.
Proof.
  intros Hiter Hpos Hlt Htol Hinc.
  destruct (fmin_golden_search_split f minstep maxstep maxiter tol)
    as (bound & Hb & Hrange & ->); try assumption.
  rewrite increasing_bound in Hb
    by (assumption || (intros; apply Hinc; lra)).
  cbn [outcome snd]. injection Hb as Hb.
  assert (Hbound : bound <= 2 * minstep) by (rewrite <- Hb; apply Rmin_l).
  destruct (golden_search_spec f bound maxiter tol Hiter)
    as (n & Hn & _ & -> & _).
  eexists. split; [reflexivity|].
  assert (Hbpos : 0 < bound) by lra.
  pose proof (minimum_in_bracket f 0 bound Hbpos ltac:(lra)
                ltac:(intros; lra)
                ltac:(intros; apply Hinc; lra) n) as Hin.
  pose proof (bracket_bounds f n bound (Rlt_le _ _ Hbpos)) as Hbr.
  pose proof (width_iter f n bound) as Hw.
  pose proof (width_positive f bound Hbpos n) as Hwp.
  cbv zeta in Hbr. unfold width in Hw, Hwp.
  pose proof golden_ratio_bounds as Hphi.
  assert (Hpow : golden_ratio ^ n <= golden_ratio).
  { destruct n as [|n]; [lia|]. cbn [pow].
    assert (golden_ratio ^ n <= 1) by (apply pow1_le; lra).
    nra. }
  assert (golden_ratio ^ n * bound <= golden_ratio * bound)
    by (apply Rmult_le_compat_r; lra).
  assert (golden_ratio * bound < 1 * bound)
    by (apply Rmult_lt_compat_r; lra).
  unfold midpoint. lra.
Qed.

Lemma fmin_golden_search_increasing_witness :
  exists r,
    outcome (fmin_golden_search (fun x => Fin x)
                                (1 / 100000) 50 1024 (1 / 100000)) = inr r /\
    0 < r < 1 / 100000.
Proof.
  apply (fmin_golden_search_increasing
           (fun x => Fin x) (1 / 100000) 50 1024 (1 / 100000));
    [lia | lra | lra | lra |].
  intros x y _ Hxy _. rewrite lt_Fin. now apply Rltb_true.
Defined.

(** X18. On a finite-valued objective that is strictly decreasing on
    [[0, maxstep]], with valid parameters and a budget that lets the step
    double up to [maxstep], [fmin_golden_search] returns a step in the
    upper part of the range, above [(1 - phi / 2) maxstep] and below
    [maxstep]. *)
Theorem fmin_golden_search_decreasing
  (g : R -> R) (minstep maxstep : R) (maxiter : Z) (tol : R) :
  (1 <= maxiter)%Z -> 0 < minstep -> minstep < maxstep -> 0 < tol ->
  (forall x y, 0 <= x -> x < y -> y <= maxstep -> g y < g x) ->
  maxstep <= 2 ^ Z.to_nat maxiter * minstep ->
  exists r,
    outcome (fmin_golden_search (fun x => Fin (g x))
                                minstep maxstep maxiter tol) = inr r /\
    (1 - golden_ratio / 2) * maxstep <= r < maxstep.
Proof.
  intros Hiter Hpos Hlt Htol Hdec Hreach.
  set (f := fun x => Fin (g x)).
  destruct (fmin_golden_search_split f minstep maxstep maxiter tol)
    as (bound & Hb & Hrange & ->); try assumption.
  unfold f in Hb. rewrite interval_location_doubling in Hb
    by (assumption || lra || (intros; apply Hdec; lra)).
  injection Hb as Hb.
  assert (bound = maxstep) as ->
    by (rewrite <- Hb; unfold Rmin; destruct (Rle_dec _ _); lra).
  cbn [outcome snd].
  destruct (golden_search_spec f maxstep maxiter tol Hiter)
    as (n & Hn & _ & -> & _).
  eexists. split; [reflexivity|].
  assert (Hmax : 0 < maxstep) by lra.
  assert (Hdec' : forall x y, 0 <= x -> x < y -> y <= maxstep ->
                              lt (f y) (f x) = true)
    by (intros x y H1 H2 H3; unfold f; rewrite lt_Fin;
        apply Rltb_true; now apply Hdec).
  pose proof (minimum_in_bracket f maxstep maxstep Hmax ltac:(lra)
                Hdec' ltac:(intros; lra) n) as Hin.
  pose proof (bracket_bounds f n maxstep (Rlt_le _ _ Hmax)) as Hbr.
  pose proof (width_iter f n maxstep) as Hw.
  pose proof (width_positive f maxstep Hmax n) as Hwp.
  cbv zeta in Hbr. unfold width in Hw, Hwp.
  pose proof golden_ratio_bounds as Hphi.
  assert (Hpow : golden_ratio ^ n <= golden_ratio).
  { destruct n as [|n]; [lia|]. cbn [pow].
    assert (golden_ratio ^ n <= 1) by (apply pow1_le; lra).
    nra. }
  assert (golden_ratio ^ n * maxstep <= golden_ratio * maxstep)
    by (apply Rmult_le_compat_r; lra).
  unfold midpoint. lra.
Qed.

Lemma fmin_golden_search_decreasing_witness :
  exists r,
    outcome (fmin_golden_search (fun x => Fin (- x)) 1 50 10 (1 / 100000))
    = inr r /\
    (1 - golden_ratio / 2) * 50 <= r < 50.
Proof.
  apply (fmin_golden_search_decreasing
           (fun x => - x) 1 50 10 (1 / 100000));
    [lia | lra | lra | lra | intros; lra | simpl; lra].
Defined.
